(** * FastAPI-CSV: the ingestion pipeline and the query endpoints of
    [app/main.py], as a shallow embedding.

    The module [main.py] holds four pieces of logic:
    - [worker]: the loop of a pool task that takes a batch from the
      queue, inserts it inside a session and puts it back on failure;
    - [process_csv_async]: the producer that reads the upload chunk by
      chunk and puts one batch per chunk on the queue;
    - [upload_csv]: the endpoint that checks the file name and creates
      the producer task;
    - [get_users] and [get_user]: the read endpoints.

    Python integers are [Z], text is [string] (a decoded [str] is kept as
    its UTF-8 bytes), raised exceptions are the [Raises] case of
    [outcome]. *)

From Stdlib Require Import List ZArith String Ascii Bool Arith Lia.
From Stdlib Require Import Strings.Byte Permutation.
Import ListNotations.

Open Scope string_scope.
Open Scope Z_scope.

(** ** Values, records and exceptions *)

(** A cell of a data frame, and so an attribute of a [models.User] built
    from it: the code passes [row['Age']] on without looking at it. *)
Inductive value :=
| VInt (z : Z)
| VStr (s : string)
| VNaN.

(** Modelled from the spec: [models.User] (module [models] is not part of
    the sources at hand). "fields firstName (string), lastName (string),
    age (integer), email (string), plus a store-assigned unique
    identifier ... assigned on first successful persistence; absent
    before that." The declared column types are not enforced when the
    object is built, so the attributes are [value]s. *)
Record User := mkUser {
  id : option Z;
  firstName : value;
  lastName : value;
  age : value;
  email : value
}.

Definition Batch := list User.

(** The exceptions the code raises or meets. A formatted text such as
    [f"An error occurred ...: {str(e)}"] is kept as its fixed part and
    the exception it prints ([MsgStr]). *)
Inductive exn :=
| HTTPException (status_code : Z) (detail : message)
| UnicodeDecodeError
| EmptyDataError
| ParserError (expected line saw : nat)
| KeyError (key : string)
| ZeroDivisionError
| ValueError (msg : string)
| PersistenceError (msg : string)
with message :=
| Msg (text : string)
| MsgStr (text : string) (e : exn).

(** What a call does: it returns a value or raises. *)
Inductive outcome (A : Type) :=
| Returns (a : A)
| Raises (e : exn).
Arguments Returns {A} a.
Arguments Raises {A} e.

Definition value_eq_dec (x y : value) : {x = y} + {x <> y}.
Proof. decide equality; [apply Z.eq_dec|apply string_dec]. Defined.

Definition User_eq_dec (x y : User) : {x = y} + {x <> y}.
Proof.
  decide equality; try apply value_eq_dec.
  decide equality. apply Z.eq_dec.
Defined.

(** ** The query endpoints *)

Module Query.

(** Modelled from the spec: [schemas.User.model_validate] (module
    [schemas] is not part of the sources at hand). "for an existing id
    returns a record whose fields match what was inserted": the response
    object carries the attributes of the row unchanged. *)
Definition model_validate (u : User) : User := u.

Record UsersResponse := mkUsersResponse {
  users_success : bool;
  users_data : list User;
  total_pages : Z;
  next_page : bool
}.

Record UserResponse := mkUserResponse {
  user_success : bool;
  user_data : User
}.

(** Python's [a // b] on integers: floor division, [ZeroDivisionError]
    when the divisor is zero. *)
Definition floordiv (a b : Z) : outcome Z :=
  if b =? 0 then Raises ZeroDivisionError else Returns (a / b).

Section Store.

(** [select(models.User).offset(offset).limit(limit)] over the rows of
    the table in scan order. What the engine does with a negative offset
    or limit depends on the engine behind [database.engine], which is not
    part of the sources at hand: it is the parameter [negative_window]. *)
Variable negative_window : Z -> Z -> list User -> outcome (list User).

Definition select_window (offset limit : Z) (rows : list User)
  : outcome (list User) :=
  if (offset <? 0) || (limit <? 0) then negative_window offset limit rows
  else Returns (firstn (Z.to_nat limit) (skipn (Z.to_nat offset) rows)).

(** [get_users], lines 136-171. [rows] is the content of the table when
    the handler runs. *)
Definition get_users (limit page : Z) (rows : list User)
  : outcome UsersResponse :=
  let offset := (page - 1) * limit in
  match select_window offset limit rows with
  | Raises e => Raises e
  | Returns users =>
      let user_responses := map model_validate users in
      let total_users := Z.of_nat (List.length rows) in
      match floordiv (total_users + limit - 1) limit with
      | Raises e => Raises e
      | Returns total_pages =>
          let next_page := page <? total_pages in
          Returns (mkUsersResponse true user_responses total_pages next_page)
      end
  end.

End Store.

(** [select(models.User).filter(models.User.id == user_id)] followed by
    [.first()]: the first row with that identifier, [None] without one. *)
Definition has_id (user_id : Z) (u : User) : bool :=
  match id u with
  | Some i => i =? user_id
  | None => false
  end.

Definition first_with_id (user_id : Z) (rows : list User) : option User :=
  find (has_id user_id) rows.

(** [get_user], lines 174-191. *)
Definition get_user (user_id : Z) (rows : list User) : outcome UserResponse :=
  match first_with_id user_id rows with
  | None => Raises (HTTPException 404 (Msg "User not found"))
  | Some user => Returns (mkUserResponse true (model_validate user))
  end.

End Query.

(** ** Decoding the upload *)

Module Utf8.

Open Scope N_scope.

Definition between (lo hi : N) (b : byte) : bool :=
  (lo <=? Byte.to_N b) && (Byte.to_N b <=? hi).

Definition continuation (b : byte) : bool := between 128 191 b.

(** The well-formed byte sequences of UTF-8 (the table of RFC 3629, which
    the strict decoder of [bytes.decode('utf-8')] follows): no overlong
    forms, no surrogates, nothing above U+10FFFF. *)
Fixpoint well_formed (bs : list byte) : bool :=
  match bs with
  | [] => true
  | b0 :: r0 =>
      if between 0 127 b0 then well_formed r0
      else if between 194 223 b0 then
        match r0 with
        | b1 :: r1 => continuation b1 && well_formed r1
        | _ => false
        end
      else if between 224 239 b0 then
        match r0 with
        | b1 :: b2 :: r2 =>
            (if between 224 224 b0 then between 160 191 b1
             else if between 237 237 b0 then between 128 159 b1
             else continuation b1)
            && continuation b2 && well_formed r2
        | _ => false
        end
      else if between 240 244 b0 then
        match r0 with
        | b1 :: b2 :: b3 :: r3 =>
            (if between 240 240 b0 then between 144 191 b1
             else if between 244 244 b0 then between 128 143 b1
             else continuation b1)
            && continuation b2 && continuation b3 && well_formed r3
        | _ => false
        end
      else false
  end.

Definition text_of (bs : list byte) : string := string_of_list_byte bs.

(** [file_content.decode('utf-8')]: the text, kept as its UTF-8 bytes, or
    [UnicodeDecodeError]. *)
Definition decode (bs : list byte) : outcome string :=
  if well_formed bs then Returns (text_of bs) else Raises UnicodeDecodeError.

(** [str.encode('utf-8')] of a text kept that way. *)
Definition encode (s : string) : list byte := list_byte_of_string s.

End Utf8.

(** ** The chunked reader

    [pd.read_csv(file_stream, chunksize=chunk_size)] is a call into
    pandas, a library outside this repository. What [main.py] sees of it
    is an iterator that yields data frames and may raise; [reader] is
    that behaviour. [read_csv] says which frames the iterator yields for
    the texts of a plain fragment of the format only ([plain] below):
    printable ASCII without quotation marks, lines ended by a line feed,
    cells that are words, short integer literals or empty, columns of
    one kind within a chunk. For every other text with a record line the
    behaviour of the library is the parameter [beyond], about which
    nothing is assumed. *)

Module Csv.

Record DataFrame := mkFrame {
  columns : list string;
  rows : list (list value)
}.

(** What iterating the reader does: it stops, it raises, or it yields a
    frame and goes on. *)
Inductive reader :=
| RStop
| RRaise (e : exn)
| RYield (df : DataFrame) (rest : reader).

(** A reader that yields these frames and then behaves as [last]. *)
Fixpoint yields (frames : list DataFrame) (last : reader) : reader :=
  match frames with
  | [] => last
  | df :: rest => RYield df (yields rest last)
  end.

Definition line_feed : ascii := "010"%char.
Definition comma : ascii := ","%char.

Fixpoint split (sep : ascii) (s : string) : list string :=
  match s with
  | EmptyString => [EmptyString]
  | String c r =>
      if Ascii.eqb c sep then EmptyString :: split sep r
      else match split sep r with
           | [] => [String c EmptyString]
           | h :: t => String c h :: t
           end
  end.

(** Lines made of blanks only are skipped ([skip_blank_lines]). *)
Definition is_blank (s : string) : bool :=
  forallb (fun c => Ascii.eqb c " "%char || Ascii.eqb c "009"%char)
          (list_ascii_of_string s).

(** The lines that hold a record, with their number in the text. *)
Definition records (text : string) : list (nat * string) :=
  let ls := split line_feed text in
  filter (fun p => negb (is_blank (snd p))) (combine (seq 1 (List.length ls)) ls).

Definition fields (line : nat * string) : list string :=
  split comma (snd line).

(** The cell of column [j] of a tokenized line; a line with fewer fields
    than the header has empty cells at its end. *)
Definition cell (j : nat) (tokens : list string) : string :=
  nth j tokens EmptyString.

(** A list cut into pieces of [n] elements, the last one maybe shorter.
    [k] elements are still missing in the current piece, [acc] holds it
    so far, last first. *)
Fixpoint chunk {A : Type} (n k : nat) (acc : list A) (l : list A)
  : list (list A) :=
  match l with
  | [] =>
      match acc with
      | [] => []
      | _ => [rev acc]
      end
  | x :: rest =>
      match k with
      | S (S k') => chunk n (S k') (x :: acc) rest
      | _ => rev (x :: acc) :: chunk n n [] rest
      end
  end.

(** *** The kinds of the columns *)

Definition digit (c : ascii) : option Z :=
  let n := Z.of_nat (nat_of_ascii c) in
  if (48 <=? n) && (n <=? 57) then Some (n - 48) else None.

Fixpoint digits_value (acc : Z) (s : string) : option Z :=
  match s with
  | EmptyString => Some acc
  | String c r =>
      match digit c with
      | Some d => digits_value (10 * acc + d) r
      | None => None
      end
  end.

Definition unsigned (s : string) : option Z :=
  match s with
  | EmptyString => None
  | _ => digits_value 0 s
  end.

(** The value of a cell made of an optional sign and digits. Cells with
    blanks around the digits, which the library reads as integers too,
    are outside the fragment. *)
Definition parse_int (s : string) : option Z :=
  match s with
  | EmptyString => None
  | String c r =>
      if Ascii.eqb c "-"%char then option_map Z.opp (unsigned r)
      else if Ascii.eqb c "+"%char then unsigned r
      else unsigned s
  end.

Definition is_int (s : string) : bool :=
  match parse_int s with Some _ => true | None => false end.

(** The texts read as a missing value. *)
Definition na_values : list string :=
  [EmptyString; "#N/A"; "#N/A N/A"; "#NA"; "-1.#IND"; "-1.#QNAN"; "-NaN";
   "-nan"; "1.#IND"; "1.#QNAN"; "<NA>"; "N/A"; "NA"; "NULL"; "NaN"; "None";
   "n/a"; "nan"; "null"].

Definition is_na (s : string) : bool := existsb (String.eqb s) na_values.

(** The kind of a column is decided over the chunk: integers when every
    cell of the chunk is an integer literal, text otherwise. The other
    kinds the library knows (decimal numbers, truth values, integers
    next to missing cells) do not occur in the fragment. *)
Definition type_cell (int_column : bool) (raw : string) : value :=
  if int_column then
    match parse_int raw with Some z => VInt z | None => VNaN end
  else if is_na raw then VNaN else VStr raw.

Definition int_column (raw : list (list string)) (j : nat) : bool :=
  forallb (fun tokens => is_int (cell j tokens)) raw.

Definition typed_row (ks : list bool) (tokens : list string) : list value :=
  map (fun j => type_cell (nth j ks false) (cell j tokens))
      (seq 0 (List.length ks)).

(** A chunk of tokenized lines as a frame: one row for each line, in the
    order of the lines. *)
Definition frame (cols : list string) (raw : list (list string))
  : DataFrame :=
  let ks := map (int_column raw) (seq 0 (List.length cols)) in
  mkFrame cols (map (typed_row ks) raw).

(** *** The plain fragment *)

Definition code (c : ascii) : nat := nat_of_ascii c.

Definition is_digit (c : ascii) : bool :=
  ((48 <=? code c) && (code c <=? 57))%nat.

Definition is_upper (c : ascii) : bool :=
  ((65 <=? code c) && (code c <=? 90))%nat.

Definition is_letter (c : ascii) : bool :=
  is_upper c || ((97 <=? code c) && (code c <=? 122))%nat.

(** Printable ASCII but the quotation mark. *)
Definition printable (c : ascii) : bool :=
  ((32 <=? code c) && (code c <=? 126))%nat && negb (code c =? 34)%nat.

Definition lower (c : ascii) : ascii :=
  if is_upper c then ascii_of_nat (code c + 32) else c.

Fixpoint lowercase (s : string) : string :=
  match s with
  | EmptyString => EmptyString
  | String c r => String (lower c) (lowercase r)
  end.

(** Words the library reads as a number, a truth value or a missing
    value in one spelling or another. *)
Definition reserved : list string :=
  ["inf"; "infinity"; "nan"; "true"; "false"; "na"; "n/a"; "null"; "none"].

Fixpoint last_char (s : string) (d : ascii) : ascii :=
  match s with
  | EmptyString => d
  | String c r => last_char r c
  end.

(** A word: it starts with a letter, does not end with a blank and is
    not reserved. *)
Definition is_word (s : string) : bool :=
  match s with
  | EmptyString => false
  | String c _ =>
      is_letter c
      && negb (Ascii.eqb (last_char s c) " "%char)
      && negb (existsb (String.eqb (lowercase s)) reserved)
  end.

(** One to eighteen digits, without a zero in front of other digits. *)
Definition numeral (s : string) : bool :=
  match s with
  | EmptyString => false
  | String c r =>
      forallb is_digit (list_ascii_of_string s)
      && (String.length s <=? 18)%nat
      && (negb (Ascii.eqb c "0"%char) || String.eqb r EmptyString)
  end.

(** An integer literal that fits 64 bits whatever its digits are. *)
Definition plain_int (s : string) : bool :=
  match s with
  | EmptyString => false
  | String c r => if Ascii.eqb c "-"%char then numeral r else numeral s
  end.

(** Column [j] of a chunk is of one kind: integer literals only, or
    words and empty cells with a word among them. *)
Definition column_ok (raw : list (list string)) (j : nat) : bool :=
  forallb (fun tokens => plain_int (cell j tokens)) raw
  || (forallb (fun tokens => is_word (cell j tokens)
                             || String.eqb (cell j tokens) EmptyString) raw
      && existsb (fun tokens => is_word (cell j tokens)) raw).

Fixpoint distinct (names : list string) : bool :=
  match names with
  | [] => true
  | n :: r => negb (existsb (String.eqb n) r) && distinct r
  end.

(** The texts [read_csv] is described for, read in chunks of
    [chunksize] lines: printable ASCII and line feeds, no line of blanks
    but the empty line, a header of different words, a data line at
    least, no data line with more fields than the header, and every
    column of every chunk of one kind. *)
Definition plain (chunksize : nat) (text : string) : bool :=
  forallb (fun c => printable c || Ascii.eqb c line_feed)
          (list_ascii_of_string text)
  && forallb (fun l => String.eqb l EmptyString || negb (is_blank l))
             (split line_feed text)
  && match records text with
     | [] => false
     | header :: data =>
         let cols := fields header in
         forallb is_word cols && distinct cols
         && negb (Nat.eqb (List.length data) 0)
         && forallb (fun line =>
                       (List.length (fields line) <=? List.length cols)%nat)
                    data
         && forallb (fun group =>
                       forallb (column_ok group) (seq 0 (List.length cols)))
                    (chunk chunksize chunksize [] (map fields data))
     end.

(** *** The reader *)

Section Reader.

(** What the library does with a text outside the fragment. *)
Variable beyond : string -> nat -> reader.

(** [pd.read_csv(StringIO(text), chunksize=n)]. A text without a record
    line has no header to read, the first turn of the loop raises. For a
    plain text the first record line is the header and the data lines
    come in frames of [n] rows, the last one maybe shorter. *)
Definition read_csv (text : string) (chunksize : nat) : reader :=
  match chunksize with
  | O => RRaise (ValueError "'chunksize' must be an integer >=1")
  | S _ =>
      match records text with
      | [] => RRaise EmptyDataError
      | header :: data =>
          if plain chunksize text
          then yields (map (frame (fields header))
                           (chunk chunksize chunksize [] (map fields data)))
                      RStop
          else beyond text chunksize
      end
  end.

End Reader.

Fixpoint index_of (key : string) (cols : list string) : option nat :=
  match cols with
  | [] => None
  | c :: r =>
      if String.eqb c key then Some O
      else option_map S (index_of key r)
  end.

(** [row[key]] for a row of a frame with these columns. *)
Definition getitem (cols : list string) (row : list value) (key : string)
  : outcome value :=
  match index_of key cols with
  | Some j => Returns (nth j row VNaN)
  | None => Raises (KeyError key)
  end.

End Csv.

(** ** The shared state of the process *)

(** [asyncio.Queue()]: the items in the order [get] returns them, and the
    count of items put and not yet marked done. The queue is built
    without a size limit, so [put] never waits. *)
Record Queue := mkQueue {
  items : list Batch;
  unfinished : nat
}.

Definition put (item : Batch) (q : Queue) : Queue :=
  mkQueue (items q ++ [item]) (S (unfinished q)).

(** [task_done] raises when it is called more often than items were
    put. *)
Definition task_done (q : Queue) : outcome Queue :=
  match unfinished q with
  | O => Raises (ValueError "task_done() called too many times")
  | S n => Returns (mkQueue (items q) n)
  end.

(** The session of one attempt: its number and the objects added to it
    and not yet flushed. *)
Record Session := mkSession {
  sid : nat;
  pending : list User
}.

(** The calls the code makes on the queue, on a session, on the reader
    and on the log, in the order it makes them. *)
Inductive event :=
| QGet (item : Batch)
| QPut (item : Batch)
| QTaskDone
| SOpen (n : nat)
| SAddAll (n : nat) (objects : list User)
| SCommit (n : nat)
| SRollback (n : nat)
| SClose (n : nat)
| Next
| LogInfo (m : message)
| LogError (m : message).

(** Where a worker stands in the body of its loop (lines 37-55). *)
Inductive pc :=
| Waiting
| Opening (batch : Batch)
| Adding (batch : Batch) (db : Session)
| Committing (batch : Batch) (db : Session)
| Acking (batch : Batch) (db : Session)
| Requeueing (batch : Batch) (db : Session) (e : exn)
| RollingBack (db : Session) (e : exn)
| Reporting (db : Session) (e : exn)
| Closing (db : Session) (raised : option exn)
| Dead (e : exn).

(** A coroutine handed to [asyncio.create_task] by a request handler. *)
Inductive coroutine :=
| ProcessCsv (file_content : list byte) (filename : string).

Record State := mkState {
  queue : Queue;
  table : list User;
  sessions : nat;
  pool : list pc;
  tasks : list coroutine;
  trace : list event
}.

Definition with_queue (q : Queue) (s : State) : State :=
  mkState q (table s) (sessions s) (pool s) (tasks s) (trace s).

Definition with_table (t : list User) (s : State) : State :=
  mkState (queue s) t (sessions s) (pool s) (tasks s) (trace s).

Definition with_sessions (n : nat) (s : State) : State :=
  mkState (queue s) (table s) n (pool s) (tasks s) (trace s).

Definition with_pool (p : list pc) (s : State) : State :=
  mkState (queue s) (table s) (sessions s) p (tasks s) (trace s).

Definition with_tasks (t : list coroutine) (s : State) : State :=
  mkState (queue s) (table s) (sessions s) (pool s) t (trace s).

Definition emit (es : list event) (s : State) : State :=
  mkState (queue s) (table s) (sessions s) (pool s) (tasks s) (trace s ++ es).

(** ** The producer *)

Definition chunk_size : nat := 1000.

(** Lines 78-83: the four cells are read in the order of the keyword
    arguments; the object has no identifier yet. *)
Definition user_of_row (cols : list string) (row : list value) : outcome User :=
  match Csv.getitem cols row "FirstName" with
  | Raises e => Raises e
  | Returns fn =>
  match Csv.getitem cols row "LastName" with
  | Raises e => Raises e
  | Returns ln =>
  match Csv.getitem cols row "Age" with
  | Raises e => Raises e
  | Returns a =>
  match Csv.getitem cols row "Email" with
  | Raises e => Raises e
  | Returns em => Returns (mkUser None fn ln a em)
  end end end end.

(** Lines 77-85: the list comprehension over [chunk.iterrows()]. *)
Fixpoint users_of_rows (cols : list string) (rs : list (list value))
  : outcome (list User) :=
  match rs with
  | [] => Returns []
  | r :: rest =>
      match user_of_row cols r with
      | Raises e => Raises e
      | Returns u =>
          match users_of_rows cols rest with
          | Raises e => Raises e
          | Returns us => Returns (u :: us)
          end
      end
  end.

Definition users_of_chunk (chunk : Csv.DataFrame) : outcome (list User) :=
  users_of_rows (Csv.columns chunk) (Csv.rows chunk).

(** Lines 76-88: the [for] loop. Each turn asks the reader for the next
    chunk, builds the objects and puts them on the queue. *)
Fixpoint for_chunks (r : Csv.reader) (s : State) : State * outcome unit :=
  match r with
  | Csv.RStop => (emit [Next] s, Returns tt)
  | Csv.RRaise e => (emit [Next] s, Raises e)
  | Csv.RYield chunk rest =>
      match users_of_chunk chunk with
      | Raises e => (emit [Next] s, Raises e)
      | Returns users =>
          for_chunks rest
            (emit [Next; QPut users] (with_queue (put users (queue s)) s))
      end
  end.

(** [process_csv_async], lines 63-94. The decoding stands before the
    [try]; what the loop raises is logged and raised again as a 500.
    [beyond] is what the reader does outside the plain fragment. *)
Definition process_csv_async (beyond : string -> nat -> Csv.reader)
  (file_content : list byte) (filename : string)
  (s : State) : State * outcome unit :=
  match Utf8.decode file_content with
  | Raises e => (s, Raises e)
  | Returns text =>
      match for_chunks (Csv.read_csv beyond text chunk_size) s with
      | (s', Returns _) =>
          (emit [LogInfo (Msg ("CSV file '" ++ filename
                               ++ "' is being processed in the background."))] s',
           Returns tt)
      | (s', Raises e) =>
          (emit [LogError (MsgStr ("An error occurred while processing the CSV '"
                                   ++ filename ++ "': ") e)] s',
           Raises (HTTPException 500
                     (MsgStr "An error occurred while processing the CSV: " e)))
      end
  end.

(** ** The batches an upload should give

    Written from the text of the upload, to state what the producer
    does. *)

Definition required : list string :=
  ["FirstName"; "LastName"; "Age"; "Email"].

Definition has_column (cols : list string) (key : string) : bool :=
  match Csv.index_of key cols with
  | Some _ => true
  | None => false
  end.

Definition has_columns (cols : list string) : bool :=
  forallb (has_column cols) required.

Definition cell_at (cols : list string) (row : list value) (key : string)
  : value :=
  match Csv.index_of key cols with
  | Some j => nth j row VNaN
  | None => VNaN
  end.

(** The record of a row of a frame with these columns. *)
Definition user_of (cols : list string) (row : list value) : User :=
  mkUser None (cell_at cols row "FirstName") (cell_at cols row "LastName")
         (cell_at cols row "Age") (cell_at cols row "Email").

(** The batch of a frame: one record for each row, in the order of the
    rows. *)
Definition batch_of (df : Csv.DataFrame) : Batch :=
  map (user_of (Csv.columns df)) (Csv.rows df).

(** What a cell of a plain text stands for, read by itself: an integer
    literal is that integer, an empty cell is a missing value, any other
    cell is its own text. *)
Definition plain_value (raw : string) : value :=
  match Csv.parse_int raw with
  | Some z => VInt z
  | None => if String.eqb raw EmptyString then VNaN else VStr raw
  end.

(** The attribute a data line with these fields has for the column
    [key] of the header [cols]. *)
Definition field_of (cols tokens : list string) (key : string) : value :=
  match Csv.index_of key cols with
  | Some j => plain_value (Csv.cell j tokens)
  | None => VNaN
  end.

(** The record of a data line of a plain text. *)
Definition record_of (cols : list string) (line : nat * string) : User :=
  mkUser None
         (field_of cols (Csv.fields line) "FirstName")
         (field_of cols (Csv.fields line) "LastName")
         (field_of cols (Csv.fields line) "Age")
         (field_of cols (Csv.fields line) "Email").


(** The state after the loop of the producer has put these batches. *)
Fixpoint queued (batches : list Batch) (s : State) : State :=
  match batches with
  | [] => s
  | b :: rest =>
      queued rest (emit [Next; QPut b] (with_queue (put b (queue s)) s))
  end.


(** ** The upload endpoint *)

Record UploadFile := mkUploadFile {
  filename : string;
  content : list byte
}.

Record BaseResponse := mkBaseResponse {
  success : bool;
  message_text : string
}.

(** [str.endswith]. *)
Definition endswith (s suffix : string) : bool :=
  (String.length suffix <=? String.length s)%nat
  && String.eqb
       (substring (String.length s - String.length suffix)
                  (String.length suffix) s)
       suffix.

(** [asyncio.create_task]: the coroutine is scheduled, it has not run
    when the call returns. *)
Definition create_task (c : coroutine) (s : State) : State :=
  with_tasks (tasks s ++ [c]) s.

(** [upload_csv], lines 111-132. *)
Definition upload_csv (file : UploadFile) (s : State)
  : State * outcome BaseResponse :=
  if negb (endswith (filename file) ".csv") then
    (s, Raises (HTTPException 400
                  (Msg "Invalid file type. Please upload a CSV file.")))
  else
    let file_content := content file in
    (create_task (ProcessCsv file_content (filename file)) s,
     Returns (mkBaseResponse true
                "CSV file is being processed in the background")).

(** The event loop runs the oldest scheduled coroutine. The producer has
    no point where it waits ([put] on a queue without limit returns at
    once), so it runs to its end; what it raises stays in its task. *)
Definition run_task (beyond : string -> nat -> Csv.reader) (s : State)
  : State * option (outcome unit) :=
  match tasks s with
  | [] => (s, None)
  | ProcessCsv file_content name :: rest =>
      let (s', r) :=
        process_csv_async beyond file_content name (with_tasks rest s) in
      (s', Some r)
  end.

(** ** The persistence layer as the worker uses it *)

(** Modelled from the spec: the session that [database.get_db] yields
    (module [database] is not part of the sources at hand). "Required
    operations: openSession() -> Session; Session.addAll(records);
    Session.commit() (fails with PersistenceError ...);
    Session.rollback(); Session.close()", with a store that gives each
    row "an auto-assigned integer primary identifier". Whether a call on
    the session returns or raises is not decided by [main.py]: it is
    read from [Env]. A commit that returns has written all the pending
    objects, a commit that raises has written none. *)
Record Env := mkEnv {
  add_all_result : outcome unit;
  commit_result : outcome unit;
  rollback_result : outcome unit;
  close_result : outcome unit
}.

Definition max_id (rows : list User) : Z :=
  fold_right (fun u m => match id u with Some i => Z.max i m | None => m end)
             0 rows.

Definition with_id (i : Z) (u : User) : User :=
  mkUser (Some i) (firstName u) (lastName u) (age u) (email u).

Fixpoint assign_ids (next : Z) (us : list User) : list User :=
  match us with
  | [] => []
  | u :: rest => with_id next u :: assign_ids (next + 1) rest
  end.

Definition insert_all (rows objects : list User) : list User :=
  rows ++ assign_ids (max_id rows + 1) objects.

(** ** The worker *)

(** One statement of the loop body of [worker] (lines 37-55), for a
    worker standing at [p]. A worker in [Waiting] with an empty queue
    stays there: [queue.get()] has not returned. *)
Definition worker (o : Env) (p : pc) (s : State) : pc * State :=
  match p with
  | Waiting =>
      (* batch = await queue.get() *)
      match items (queue s) with
      | [] => (Waiting, s)
      | batch :: rest =>
          (Opening batch,
           emit [QGet batch]
             (with_queue (mkQueue rest (unfinished (queue s))) s))
      end
  | Opening batch =>
      (* db = await anext(get_db()) *)
      (Adding batch (mkSession (sessions s) []),
       emit [SOpen (sessions s)] (with_sessions (S (sessions s)) s))
  | Adding batch db =>
      (* db.add_all(batch) *)
      match add_all_result o with
      | Returns _ =>
          (Committing batch (mkSession (sid db) (pending db ++ batch)),
           emit [SAddAll (sid db) batch] s)
      | Raises e =>
          (Requeueing batch db e, emit [SAddAll (sid db) batch] s)
      end
  | Committing batch db =>
      (* await db.commit() *)
      match commit_result o with
      | Returns _ =>
          (Acking batch (mkSession (sid db) []),
           emit [SCommit (sid db)]
             (with_table (insert_all (table s) (pending db)) s))
      | Raises e =>
          (Requeueing batch db e, emit [SCommit (sid db)] s)
      end
  | Acking batch db =>
      (* logging.info(...); queue.task_done() *)
      match task_done (queue s) with
      | Returns q =>
          (Closing db None,
           emit [LogInfo (Msg "Batch inserted successfully."); QTaskDone]
             (with_queue q s))
      | Raises e =>
          (Requeueing batch db e,
           emit [LogInfo (Msg "Batch inserted successfully."); QTaskDone] s)
      end
  | Requeueing batch db e =>
      (* except Exception as e: await queue.put(batch) *)
      (RollingBack db e,
       emit [QPut batch] (with_queue (put batch (queue s)) s))
  | RollingBack db e =>
      (* await db.rollback() *)
      match rollback_result o with
      | Returns _ =>
          (Reporting (mkSession (sid db) []) e, emit [SRollback (sid db)] s)
      | Raises e' =>
          (Closing db (Some e'), emit [SRollback (sid db)] s)
      end
  | Reporting db e =>
      (* logging.error(...) *)
      (Closing db None,
       emit [LogError (MsgStr "An error occurred while inserting batch: " e)] s)
  | Closing db raised =>
      (* finally: await db.close() *)
      match close_result o with
      | Returns _ =>
          (match raised with None => Waiting | Some e => Dead e end,
           emit [SClose (sid db)] s)
      | Raises e' => (Dead e', emit [SClose (sid db)] s)
      end
  | Dead e => (Dead e, s)
  end.

Fixpoint set_nth {A : Type} (i : nat) (x : A) (l : list A) : list A :=
  match l, i with
  | [], _ => []
  | _ :: t, O => x :: t
  | h :: t, S j => h :: set_nth j x t
  end.

(** The event loop lets worker [i] run one statement. *)
Definition step (o : Env) (i : nat) (s : State) : State :=
  match nth_error (pool s) i with
  | None => s
  | Some p =>
      let (p', s') := worker o p s in
      with_pool (set_nth i p' (pool s')) s'
  end.

(** A run of the pool: which worker moves, and what the persistence layer
    answers if it calls it. *)
Fixpoint run (schedule : list (nat * Env)) (s : State) : State :=
  match schedule with
  | [] => s
  | (i, o) :: rest => run rest (step o i s)
  end.

Definition idle (p : pc) : bool :=
  match p with
  | Waiting | Dead _ => true
  | _ => false
  end.

(** The body of the loop run once by a worker on its own: from
    [queue.get()] until the worker is back at the top of the loop or has
    ended. No path through the body has more than nine statements. *)
Fixpoint settle (fuel : nat) (o : Env) (p : pc) (s : State) : pc * State :=
  match fuel with
  | O => (p, s)
  | S f =>
      if idle p then (p, s)
      else let (p', s') := worker o p s in settle f o p' s'
  end.

Definition attempt (o : Env) (s : State) : pc * State :=
  let (p, s') := worker o Waiting s in settle 8 o p s'.

(** The same inside the pool: worker [i] runs until it is idle again. *)
Fixpoint until_idle (fuel : nat) (o : Env) (i : nat) (s : State) : State :=
  match fuel with
  | O => s
  | S f =>
      match nth_error (pool s) i with
      | Some p => if idle p then s else until_idle f o i (step o i s)
      | None => s
      end
  end.

Definition iteration (o : Env) (i : nat) (s : State) : State :=
  until_idle 8 o i (step o i s).

(** Lines 29 and 57-59: an empty queue and five worker tasks, over the
    rows the table holds when the process starts. *)
Definition workers : nat := 5.

Definition start (rows : list User) : State :=
  mkState (mkQueue [] 0) rows 0 (repeat Waiting workers) [] [].

Definition is_dead (p : pc) : bool :=
  match p with
  | Dead _ => true
  | _ => false
  end.

(** The worker tasks that have not ended. *)
Definition alive (s : State) : nat :=
  List.length (filter (fun p => negb (is_dead p)) (pool s)).

(** ** What the statements below are about *)

(** A worker between its [get] and the [task_done] or [put] that settles
    it. *)
Definition in_flight (p : pc) : bool :=
  match p with
  | Opening _ | Adding _ _ | Committing _ _ | Acking _ _
  | Requeueing _ _ _ => true
  | _ => false
  end.

(** The count of the queue covers the items in it and those in flight. *)
Definition accounted (s : State) : Prop :=
  (List.length (items (queue s))
   + List.length (filter in_flight (pool s)) <= unfinished (queue s))%nat.

(** The records a worker has taken from the queue and neither written
    nor put back. *)
Definition holding (p : pc) : list User :=
  match p with
  | Opening b | Adding b _ | Committing b _ | Requeueing b _ _ => b
  | _ => []
  end.

(** A record without its identifier, as the producer made it. *)
Definition erase (u : User) : User :=
  mkUser None (firstName u) (lastName u) (age u) (email u).

(** Every record the process knows of: the rows of the table, the
    batches on the queue and the batches in the hands of a worker. *)
Definition records (s : State) : list User :=
  map erase (table s)
  ++ map erase (List.concat (items (queue s)))
  ++ map erase (flat_map holding (pool s)).

Definition session_of (e : event) : option nat :=
  match e with
  | SOpen n | SAddAll n _ | SCommit n | SRollback n | SClose n => Some n
  | _ => None
  end.

Definition uses_session (n : nat) (e : event) : bool :=
  match session_of e with
  | Some m => Nat.eqb m n
  | None => false
  end.

(** What the session made the attempt raise, if anything: the exception
    of [add_all], else that of [commit]. *)
Definition raised (o : Env) : option exn :=
  match add_all_result o with
  | Raises e => Some e
  | Returns _ =>
      match commit_result o with
      | Raises e => Some e
      | Returns _ => None
      end
  end.

(** The loop of [worker] run on its own, one [Env] for each turn, for as
    long as the worker comes back to the top of the loop. *)
Fixpoint attempts (os : list Env) (s : State) : pc * State :=
  match os with
  | [] => (Waiting, s)
  | o :: rest =>
      match attempt o s with
      | (Waiting, s') => attempts rest s'
      | stopped => stopped
      end
  end.

(** A session holds nothing before [add_all] and the batch after it. *)
Definition coherent (p : pc) : Prop :=
  match p with
  | Adding _ db => pending db = []
  | Committing batch db => pending db = batch
  | _ => True
  end.

Definition sound (s : State) : Prop :=
  accounted s /\ Forall coherent (pool s).

Definition session_at (p : pc) : option nat :=
  match p with
  | Adding _ db | Committing _ db | Acking _ db | Requeueing _ db _
  | RollingBack db _ | Reporting db _ | Closing db _ => Some (sid db)
  | _ => None
  end.

(** A call that is not [open] and, if made on a session, is made on
    session [n]. *)
Definition on_session (n : nat) (e : event) : bool :=
  match e with
  | SOpen _ => false
  | _ => match session_of e with
         | Some m => Nat.eqb m n
         | None => true
         end
  end.

(** How often a record occurs in a list, identifiers left aside. *)
Definition occ (x : User) (l : list User) : nat :=
  count_occ User_eq_dec (map erase l) x.

(** The session numbers in the trace and in the hands of the workers are
    below the next one to give. *)
Definition numbered (s : State) : Prop :=
  (forall e n, In e (trace s) -> session_of e = Some n -> (n < sessions s)%nat)
  /\ (forall p n, In p (pool s) -> session_at p = Some n ->
      (n < sessions s)%nat).

(** The call to [commit], when the turn gets that far. *)
Definition commit_call (o : Env) (n : nat) : list event :=
  match add_all_result o with
  | Returns _ => [SCommit n]
  | Raises _ => []
  end.

(** A turn that fails and leaves the worker in its loop: [add_all] or
    [commit] raises, [rollback] and [close] return. *)
Definition fails (o : Env) : Prop :=
  raised o <> None
  /\ rollback_result o = Returns tt /\ close_result o = Returns tt.

(** ** Sample values *)

Definition ada : User :=
  mkUser None (VStr "Ada") (VStr "Lovelace") (VInt 36) (VStr "ada@example.org").

Definition all_return : Env :=
  mkEnv (Returns tt) (Returns tt) (Returns tt) (Returns tt).

Definition commit_raises : Env :=
  mkEnv (Returns tt) (Raises (PersistenceError "connection lost"))
        (Returns tt) (Returns tt).

Definition rollback_raises : Env :=
  mkEnv (Returns tt) (Raises (PersistenceError "connection lost"))
        (Raises (PersistenceError "connection lost")) (Returns tt).

Definition close_raises : Env :=
  mkEnv (Returns tt) (Returns tt) (Returns tt)
        (Raises (PersistenceError "connection lost")).



(** An upload with two rows. *)
Definition two_rows_text : string :=
  "FirstName,LastName,Age,Email" ++ String Csv.line_feed
  ("Ada,Lovelace,36,ada@example.org" ++ String Csv.line_feed
   ("Alan,Turing,41,alan@example.org" ++ String Csv.line_feed "")).

Definition two_rows : list byte := Utf8.encode two_rows_text.



Definition alan : User :=
  mkUser None (VStr "Alan") (VStr "Turing") (VInt 41)
         (VStr "alan@example.org").

(** An upload of a thousand and one rows: a thousand times the first
    one and then another. *)
Definition long_data : list (nat * string) :=
  combine (seq 2 1001)
          (repeat "Ada,Lovelace,36,ada@example.org" 1000
           ++ ["Alan,Turing,41,alan@example.org"]).

Definition long_text : string :=
  String.concat (String Csv.line_feed "")
    ("FirstName,LastName,Age,Email" :: map snd long_data).

Definition long_upload : list byte := Utf8.encode long_text.



(** Two behaviours of a reader outside the plain fragment: it stops at
    once; it yields a frame of a thousand rows and raises when it is
    asked again, as the library does for the upload above. *)
Definition stops : string -> nat -> Csv.reader :=
  fun _ _ => Csv.RStop.



(** The process after its start with one batch of one record put on the
    queue. *)
Definition one_batch : State :=
  with_queue (put [ada] (queue (start []))) (start []).

(** ** Reading the table page by page *)

(** The records [get_users] returns for a page, none when it raises. *)
Definition page_data (negative_window : Z -> Z -> list User -> outcome (list User))
  (limit page : Z) (rows : list User) : list User :=
  match Query.get_users negative_window limit page rows with
  | Returns r => Query.users_data r
  | Raises _ => []
  end.

(** The [total_pages] that [get_users] reports. *)
Definition page_count (negative_window : Z -> Z -> list User -> outcome (list User))
  (limit : Z) (rows : list User) : Z :=
  match Query.get_users negative_window limit 1 rows with
  | Returns r => Query.total_pages r
  | Raises _ => 0
  end.

(** ** Sessions in the pool *)

Definition is_open (e : event) : bool :=
  match e with SOpen _ => true | _ => false end.

Definition is_close (e : event) : bool :=
  match e with SClose _ => true | _ => false end.

Definition has_session (p : pc) : bool :=
  match session_at p with Some _ => true | None => false end.

(** The sessions in the hands of the workers, in the order of the pool. *)
Definition held_sessions (workers : list pc) : list nat :=
  flat_map (fun p => match session_at p with Some n => [n] | None => [] end)
           workers.

(** Every session opened and not closed is in the hands of a worker. *)
Definition balanced (s : State) : Prop :=
  List.length (filter is_open (trace s))
  = (List.length (filter is_close (trace s))
     + List.length (filter has_session (pool s)))%nat.

(** A turn that goes through and leaves the worker in its loop. *)
Definition succeeds (o : Env) : Prop :=
  raised o = None /\ close_result o = Returns tt.

(** The first required column a header lacks. *)
Definition first_missing (cols : list string) : option string :=
  find (fun key => negb (has_column cols key)) required.

(** * Properties *)

(** ** The read endpoints *)

Section QueryFacts.

Variable negative_window : Z -> Z -> list User -> outcome (list User).

Lemma window_in_range (offset limit : Z) (rows : list User) :
  0 <= offset -> 0 <= limit ->
  Query.select_window negative_window offset limit rows
  = Returns (firstn (Z.to_nat limit) (skipn (Z.to_nat offset) rows)).
Proof.
  intros Ho Hl. unfold Query.select_window.
  destruct (Z.ltb_spec offset 0); [lia|].
  destruct (Z.ltb_spec limit 0); [lia|]. reflexivity.
Qed.

(** The quotient the handler takes is the ceiling of [total / limit]. *)
Lemma ceiling_bounds (total limit : Z) :
  1 <= limit ->
  ((total + limit - 1) / limit - 1) * limit < total
  <= (total + limit - 1) / limit * limit.
Proof.
  intros Hl.
  pose proof (Z.div_mod (total + limit - 1) limit ltac:(lia)) as Hdm.
  pose proof (Z.mod_pos_bound (total + limit - 1) limit ltac:(lia)) as Hb.
  nia.
Qed.

(** C6: for page >= 1 and limit >= 1, [get_users] returns the rows from
    offset [(page-1) * limit] on, at most [limit] of them, [total_pages]
    the ceiling of the row count over [limit], and [next_page] whether
    [page < total_pages]; with 25 rows and limit 10, page 1 gives 3
    pages and a next page, page 3 gives no next page and 5 records. *)
Theorem get_users_pages (limit page : Z) (rows : list User) :
  1 <= page -> 1 <= limit ->
  exists r,
    Query.get_users negative_window limit page rows = Returns r
    /\ Query.users_success r = true
    /\ Query.users_data r
       = firstn (Z.to_nat limit) (skipn (Z.to_nat ((page - 1) * limit)) rows)
    /\ (Query.total_pages r - 1) * limit < Z.of_nat (List.length rows)
       <= Query.total_pages r * limit
    /\ Query.next_page r = (page <? Query.total_pages r)
    /\ (List.length rows = 25%nat -> limit = 10 ->
        (page = 1 -> Query.total_pages r = 3 /\ Query.next_page r = true)
        /\ (page = 3 -> Query.total_pages r = 3 /\ Query.next_page r = false
                        /\ List.length (Query.users_data r) = 5%nat)).
Proof.
  intros Hp Hl. unfold Query.get_users.
  rewrite window_in_range by nia.
  unfold Query.floordiv. destruct (Z.eqb_spec limit 0) as [?|_]; [lia|].
  eexists. split; [reflexivity|]. cbn [Query.users_success Query.users_data
    Query.total_pages Query.next_page].
  split; [reflexivity|]. split.
  { unfold Query.model_validate. now rewrite map_id. }
  split; [now apply ceiling_bounds|]. split; [reflexivity|].
  intros Hlen ->. rewrite Hlen. split.
  - intros ->. split; reflexivity.
  - intros ->. split; [reflexivity|]. split; [reflexivity|].
    rewrite length_map, length_firstn, length_skipn, Hlen. reflexivity.
Qed.

(** C9: with [limit = 0] the call raises [ZeroDivisionError] for every
    page and every table; nothing in the handler stops a limit or a page
    below 1 before that. *)
Theorem get_users_limit_zero (page : Z) (rows : list User) :
  Query.get_users negative_window 0 page rows = Raises ZeroDivisionError.
Proof.
  unfold Query.get_users.
  rewrite window_in_range by lia. reflexivity.
Qed.

End QueryFacts.

Lemma get_users_pages_witness :
  exists r,
    Query.get_users (fun _ _ rows => Returns rows) 10 3 (repeat ada 25)
    = Returns r
    /\ Query.total_pages r = 3 /\ Query.next_page r = false
    /\ List.length (Query.users_data r) = 5%nat.
Proof.
  assert (H1 : 1 <= 3) by lia.
  assert (H2 : 1 <= 10) by lia.
  destruct (get_users_pages (fun _ _ rows => Returns rows) 10 3
              (repeat ada 25) H1 H2)
    as (r & Hr & _ & _ & _ & _ & Hex).
  destruct (Hex eq_refl eq_refl) as [_ Hthree].
  exists r. split; [exact Hr|exact (Hthree eq_refl)].
Defined.

Lemma find_none_iff {A : Type} (f : A -> bool) (l : list A) :
  find f l = None <-> forall x, In x l -> f x = false.
Proof.
  split; [apply find_none|].
  induction l as [|a l IH]; intros H; [reflexivity|]. simpl.
  rewrite (H a (or_introl eq_refl)). apply IH. intros x Hx. apply H. now right.
Qed.

Lemma has_id_true (user_id : Z) (u : User) :
  Query.has_id user_id u = true <-> id u = Some user_id.
Proof.
  unfold Query.has_id. destruct (id u) as [i|]; [|split; discriminate].
  rewrite Z.eqb_eq. split; [now intros ->|now intros [= ->]].
Qed.

(** C7: [get_user] raises the 404 "User not found" exactly when no row of
    the table has the identifier; when a row has it, the record returned
    is a row of the table with that identifier, unchanged. *)
Theorem get_user_found_or_404 (user_id : Z) (rows : list User) :
  (Query.get_user user_id rows
   = Raises (HTTPException 404 (Msg "User not found"))
   <-> forall u, In u rows -> id u <> Some user_id)
  /\ (forall u, In u rows -> id u = Some user_id ->
      exists stored,
        Query.get_user user_id rows
        = Returns (Query.mkUserResponse true stored)
        /\ In stored rows /\ id stored = Some user_id).
Proof.
  unfold Query.get_user, Query.first_with_id.
  destruct (find (Query.has_id user_id) rows) as [stored|] eqn:Hf.
  - apply find_some in Hf as [Hin Hid]. apply has_id_true in Hid. split.
    + split; [discriminate|]. intros H. now elim (H stored Hin).
    + intros _ _ _. exists stored. now repeat split.
  - split.
    + split; [|reflexivity]. intros _ u Hin Hid.
      apply has_id_true in Hid.
      rewrite (proj1 (find_none_iff _ _) Hf u Hin) in Hid. discriminate.
    + intros u Hin Hid. apply has_id_true in Hid.
      rewrite (proj1 (find_none_iff _ _) Hf u Hin) in Hid. discriminate.
Qed.

(** ** The upload endpoint *)

Lemma string_length_append (p q : string) :
  String.length (p ++ q) = (String.length p + String.length q)%nat.
Proof. induction p as [|c p IH]; simpl; [reflexivity|now rewrite IH]. Qed.

Lemma substring_whole (s : string) : substring 0 (String.length s) s = s.
Proof. induction s as [|c s IH]; simpl; [reflexivity|now rewrite IH]. Qed.

Lemma substring_after (p q : string) :
  substring (String.length p) (String.length q) (p ++ q) = q.
Proof. induction p as [|c p IH]; simpl; [apply substring_whole|exact IH]. Qed.

Lemma substring_split (s : string) (n : nat) :
  (n <= String.length s)%nat ->
  s = substring 0 n s ++ substring n (String.length s - n) s.
Proof.
  revert n. induction s as [|c s IH]; intros [|n] Hn; simpl in *;
    try reflexivity; try lia.
  - now rewrite substring_whole.
  - f_equal. apply IH. lia.
Qed.

(** [endswith] holds exactly when the text is some prefix followed by
    the suffix. *)
Lemma endswith_iff (s suffix : string) :
  endswith s suffix = true <-> exists prefix, s = prefix ++ suffix.
Proof.
  unfold endswith. rewrite andb_true_iff, Nat.leb_le, String.eqb_eq. split.
  - intros [Hle Hsub].
    exists (substring 0 (String.length s - String.length suffix) s).
    pose proof (substring_split s (String.length s - String.length suffix)
                  ltac:(lia)) as H.
    replace (String.length s - (String.length s - String.length suffix))%nat
      with (String.length suffix) in H by lia.
    now rewrite Hsub in H.
  - intros [prefix ->]. rewrite string_length_append. split; [lia|].
    replace (String.length prefix + String.length suffix
             - String.length suffix)%nat
      with (String.length prefix) by lia.
    apply substring_after.
Qed.

(** C8: a file name that does not end in ".csv" gets the 400 error and
    leaves the state, the queue with it, as it was; a file name that ends
    in ".csv" gets the success response with the message "CSV file is
    being processed in the background". *)
Theorem upload_csv_by_extension (file : UploadFile) (s : State) :
  ((forall prefix, filename file <> prefix ++ ".csv") ->
   upload_csv file s
   = (s, Raises (HTTPException 400
                   (Msg "Invalid file type. Please upload a CSV file."))))
  /\ ((exists prefix, filename file = prefix ++ ".csv") ->
      snd (upload_csv file s)
      = Returns (mkBaseResponse true
                   "CSV file is being processed in the background")
      /\ queue (fst (upload_csv file s)) = queue s).
Proof.
  unfold upload_csv. split.
  - intros Hno. destruct (endswith (filename file) ".csv") eqn:He;
      [|reflexivity].
    apply endswith_iff in He as [prefix Hp]. now elim (Hno prefix).
  - intros Hyes. apply endswith_iff in Hyes. rewrite Hyes. now split.
Qed.

Lemma upload_csv_by_extension_witness :
  upload_csv (mkUploadFile "data.txt" []) (start [])
  = (start [], Raises (HTTPException 400
                         (Msg "Invalid file type. Please upload a CSV file.")))
  /\ snd (upload_csv (mkUploadFile "data.csv" []) (start []))
     = Returns (mkBaseResponse true
                  "CSV file is being processed in the background").
Proof.
  split.
  - apply (proj1 (upload_csv_by_extension (mkUploadFile "data.txt" [])
                    (start []))).
    intros prefix H. apply (f_equal (fun t => endswith t ".csv")) in H.
    rewrite (proj2 (endswith_iff _ _) (ex_intro _ prefix eq_refl)) in H.
    vm_compute in H. discriminate.
  - apply (proj2 (upload_csv_by_extension (mkUploadFile "data.csv" [])
                    (start []))).
    exists "data". reflexivity.
Defined.

(** ** The worker: one turn of the loop *)

Open Scope list_scope.

(** Runs the body of the loop on a state whose first item is known. *)
Ltac run_body Hitems :=
  unfold attempt; cbn [worker]; rewrite Hitems;
  cbn -[insert_all]; rewrite <- ?app_assoc; cbn [app].

(** What a turn does when [add_all] or [commit] raises [e]. *)
Lemma attempt_failure (o : Env) (s : State) (batch : Batch)
  (rest : list Batch) (e : exn) :
  items (queue s) = batch :: rest ->
  raised o = Some e ->
  items (queue (snd (attempt o s))) = rest ++ [batch]
  /\ unfinished (queue (snd (attempt o s))) = S (unfinished (queue s))
  /\ table (snd (attempt o s)) = table s
  /\ trace (snd (attempt o s))
     = trace s
       ++ QGet batch :: SOpen (sessions s) :: SAddAll (sessions s) batch
          :: commit_call o (sessions s)
       ++ [QPut batch; SRollback (sessions s)]
       ++ match rollback_result o with
          | Returns _ =>
              [LogError (MsgStr "An error occurred while inserting batch: " e)]
          | Raises _ => []
          end
       ++ [SClose (sessions s)]
  /\ fst (attempt o s)
     = match rollback_result o, close_result o with
       | _, Raises e2 => Dead e2
       | Raises e1, Returns _ => Dead e1
       | Returns _, Returns _ => Waiting
       end.
Proof.
  intros Hitems Hr. unfold raised, commit_call in *.
  destruct o as [[[]|ea] [[]|ec] [[]|er] [[]|ecl]]; cbn in Hr;
    try discriminate; injection Hr as <-;
    run_body Hitems; repeat split; reflexivity.
Qed.

(** What a turn does when neither raises and the count of the queue
    covers the batch. *)
Lemma attempt_success (o : Env) (s : State) (batch : Batch)
  (rest : list Batch) :
  items (queue s) = batch :: rest ->
  unfinished (queue s) <> O ->
  raised o = None ->
  items (queue (snd (attempt o s))) = rest
  /\ table (snd (attempt o s)) = insert_all (table s) batch
  /\ trace (snd (attempt o s))
     = trace s
       ++ [QGet batch; SOpen (sessions s); SAddAll (sessions s) batch;
           SCommit (sessions s);
           LogInfo (Msg "Batch inserted successfully."); QTaskDone;
           SClose (sessions s)]
  /\ fst (attempt o s)
     = match close_result o with
       | Returns _ => Waiting
       | Raises e => Dead e
       end.
Proof.
  intros Hitems Hu Hr. unfold raised in Hr.
  destruct (unfinished (queue s)) as [|u] eqn:Hq; [contradiction|].
  destruct o as [[[]|ea] [[]|ec] [[]|er] [[]|ecl]]; cbn in Hr;
    try discriminate;
    run_body Hitems; rewrite ?Hq; cbn -[insert_all];
    rewrite <- ?app_assoc; repeat split; reflexivity.
Qed.

(** ** The worker inside the pool *)

Lemma set_nth_same {A : Type} (i : nat) (x : A) (l : list A) :
  nth_error l i = Some x -> set_nth i x l = l.
Proof.
  revert i. induction l as [|a l IH]; intros [|i] H; cbn in *;
    try discriminate; try reflexivity.
  - now injection H as ->.
  - now rewrite IH.
Qed.

Lemma set_nth_twice {A : Type} (i : nat) (x y : A) (l : list A) :
  set_nth i y (set_nth i x l) = set_nth i y l.
Proof.
  revert i. induction l as [|a l IH]; intros [|i]; cbn;
    try reflexivity. now rewrite IH.
Qed.

Lemma nth_error_set_nth {A : Type} (i : nat) (x y : A) (l : list A) :
  nth_error l i = Some y -> nth_error (set_nth i x l) i = Some x.
Proof.
  revert i. induction l as [|a l IH]; intros [|i] H; cbn in *;
    try discriminate; try reflexivity. now apply IH.
Qed.

(** Replacing one element changes a count by that element only. *)
Lemma count_set_nth {A : Type} (f : A -> bool) (i : nat) (x y : A)
  (l : list A) :
  nth_error l i = Some y ->
  (List.length (filter f (set_nth i x l)) + (if f y then 1 else 0)
   = List.length (filter f l) + (if f x then 1 else 0))%nat.
Proof.
  revert i. induction l as [|a l IH]; intros [|i] H; cbn in *;
    try discriminate.
  - injection H as ->. destruct (f x), (f y); cbn; lia.
  - specialize (IH i H). destruct (f a); cbn; lia.
Qed.

Lemma count_nth_error {A : Type} (f : A -> bool) (i : nat) (y : A)
  (l : list A) :
  nth_error l i = Some y ->
  ((if f y then 1 else 0) <= List.length (filter f l))%nat.
Proof.
  revert i. induction l as [|a l IH]; intros [|i] H; cbn in *;
    try discriminate.
  - injection H as ->. destruct (f y); cbn; lia.
  - specialize (IH i H). destruct (f a); cbn; lia.
Qed.

Lemma with_pool_same (s : State) : with_pool (pool s) s = s.
Proof. now destruct s. Qed.

Lemma worker_with_pool (o : Env) (p : pc) (l : list pc) (s : State) :
  worker o p (with_pool l s)
  = (fst (worker o p s), with_pool l (snd (worker o p s))).
Proof.
  destruct p; cbn -[insert_all]; try reflexivity.
  - now destruct (items (queue s)).
  - now destruct (add_all_result o).
  - now destruct (commit_result o).
  - now destruct (task_done (queue s)).
  - now destruct (rollback_result o).
  - now destruct (close_result o).
Qed.

Lemma worker_pool (o : Env) (p : pc) (s : State) :
  pool (snd (worker o p s)) = pool s.
Proof.
  destruct p; cbn -[insert_all]; try reflexivity.
  - now destruct (items (queue s)).
  - now destruct (add_all_result o).
  - now destruct (commit_result o).
  - now destruct (task_done (queue s)).
  - now destruct (rollback_result o).
  - now destruct (close_result o).
Qed.

Lemma step_at (o : Env) (i : nat) (p : pc) (s : State) :
  nth_error (pool s) i = Some p ->
  step o i s
  = with_pool (set_nth i (fst (worker o p s)) (pool s)) (snd (worker o p s)).
Proof.
  intros H. unfold step. rewrite H.
  pose proof (worker_pool o p s) as Hp.
  destruct (worker o p s) as [p' s']. cbn in *. now rewrite Hp.
Qed.

Lemma settle_with_pool (fuel : nat) (o : Env) (p : pc) (l : list pc)
  (s : State) :
  settle fuel o p (with_pool l s)
  = (fst (settle fuel o p s), with_pool l (snd (settle fuel o p s))).
Proof.
  revert p s. induction fuel as [|f IH]; intros p s; cbn; [reflexivity|].
  destruct (idle p); [reflexivity|].
  rewrite worker_with_pool. destruct (worker o p s) as [p' s']. cbn.
  apply IH.
Qed.

Lemma until_settle (fuel : nat) (o : Env) (i : nat) (p : pc) (s : State) :
  nth_error (pool s) i = Some p ->
  until_idle fuel o i s
  = with_pool (set_nth i (fst (settle fuel o p s)) (pool s))
              (snd (settle fuel o p s)).
Proof.
  revert p s. induction fuel as [|f IH]; intros p s H; cbn.
  - now rewrite (set_nth_same _ _ _ H), with_pool_same.
  - rewrite H. destruct (idle p).
    + cbn. now rewrite (set_nth_same _ _ _ H), with_pool_same.
    + rewrite (step_at _ _ _ _ H).
      destruct (worker o p s) as [p' s'] eqn:Hw. cbn [fst snd].
      rewrite (IH p') by (cbn; now apply nth_error_set_nth with (y := p)).
      rewrite settle_with_pool. cbn. now rewrite set_nth_twice.
Qed.

(** A turn of worker [i] in the pool is the turn of a worker on its own,
    with the place of [i] in the pool brought up to date. *)
Lemma iteration_attempt (o : Env) (i : nat) (s : State) :
  nth_error (pool s) i = Some Waiting ->
  iteration o i s
  = with_pool (set_nth i (fst (attempt o s)) (pool s)) (snd (attempt o s)).
Proof.
  intros H. unfold iteration, attempt. rewrite (step_at _ _ _ _ H).
  destruct (worker o Waiting s) as [p' s'] eqn:Hw. cbn [fst snd].
  rewrite (until_settle _ _ _ p')
    by (cbn; now apply nth_error_set_nth with (y := Waiting)).
  rewrite settle_with_pool. cbn. now rewrite set_nth_twice.
Qed.

Lemma worker_dead (o : Env) (p : pc) (s : State) :
  is_dead p = true -> is_dead (fst (worker o p s)) = true.
Proof. destruct p; cbn; try discriminate. reflexivity. Qed.

Lemma alive_step (o : Env) (i : nat) (s : State) :
  (alive (step o i s) <= alive s)%nat.
Proof.
  unfold step. destruct (nth_error (pool s) i) as [p|] eqn:H; [|lia].
  pose proof (worker_pool o p s) as Hp.
  pose proof (worker_dead o p s) as Hd.
  destruct (worker o p s) as [p' s']. cbn in *. unfold alive. cbn.
  rewrite Hp.
  pose proof (count_set_nth (fun p => negb (is_dead p)) i p' p _ H) as Hc.
  cbn in Hc. destruct (is_dead p); [rewrite Hd in Hc by reflexivity|];
    destruct (is_dead p'); cbn in Hc; lia.
Qed.

(** A task that has ended does not come back. *)
Lemma alive_run (schedule : list (nat * Env)) (s : State) :
  (alive (run schedule s) <= alive s)%nat.
Proof.
  revert s. induction schedule as [|[i o] rest IH]; intros s; cbn; [lia|].
  specialize (IH (step o i s)). pose proof (alive_step o i s). lia.
Qed.

(** ** No record is lost and none is written twice *)

Arguments occ : simpl never.

Lemma occ_app (x : User) (l l' : list User) :
  occ x (l ++ l') = (occ x l + occ x l')%nat.
Proof. unfold occ. now rewrite map_app, count_occ_app. Qed.

Lemma occ_nil (x : User) : occ x [] = O.
Proof. reflexivity. Qed.

Lemma erase_assign_ids (next : Z) (us : list User) :
  map erase (assign_ids next us) = map erase us.
Proof.
  revert next. induction us as [|u us IH]; intros next; cbn;
    [reflexivity|]. now rewrite IH.
Qed.

Lemma occ_insert_all (x : User) (rows objects : list User) :
  occ x (insert_all rows objects) = (occ x rows + occ x objects)%nat.
Proof.
  unfold insert_all. rewrite occ_app. unfold occ at 2.
  now rewrite erase_assign_ids.
Qed.

Arguments records : simpl never.

Lemma occ_records (x : User) (s : State) :
  count_occ User_eq_dec (records s) x
  = (occ x (table s) + occ x (List.concat (items (queue s)))
     + occ x (flat_map holding (pool s)))%nat.
Proof. unfold records, occ. rewrite !count_occ_app. lia. Qed.

Lemma occ_set_nth (x : User) (i : nat) (p p' : pc) (l : list pc) :
  nth_error l i = Some p ->
  (occ x (holding p) + occ x (flat_map holding (set_nth i p' l))
   = occ x (holding p') + occ x (flat_map holding l))%nat.
Proof.
  revert i. induction l as [|a l IH]; intros [|i] H; cbn in *;
    try discriminate.
  - injection H as ->. rewrite !occ_app. lia.
  - specialize (IH i H). rewrite !occ_app. lia.
Qed.

Lemma Forall_set_nth {A : Type} (P : A -> Prop) (i : nat) (x : A)
  (l : list A) :
  Forall P l -> P x -> Forall P (set_nth i x l).
Proof.
  intros Hl Hx. revert i. induction Hl as [|a l Ha Hl IH]; intros [|i]; cbn;
    constructor; auto.
Qed.

Lemma Forall_nth_error {A : Type} (P : A -> Prop) (i : nat) (x : A)
  (l : list A) :
  Forall P l -> nth_error l i = Some x -> P x.
Proof.
  intros Hl H. apply nth_error_In in H.
  now apply (proj1 (Forall_forall P l) Hl).
Qed.

(** Splits a statement of [worker] along what it reads: the head of the
    queue, the answers of the session, the count of the queue. *)
Ltac worker_cases :=
  repeat match goal with
    | |- context [match ?d with _ => _ end] =>
        lazymatch d with
        | items _ => destruct d eqn:?
        | add_all_result _ => destruct d eqn:?
        | commit_result _ => destruct d eqn:?
        | rollback_result _ => destruct d eqn:?
        | close_result _ => destruct d eqn:?
        | task_done ?q => unfold task_done; destruct (unfinished q) eqn:?
        | _ => is_var d; destruct d
        end
    end; cbn -[insert_all] in *.

(** One statement of one worker keeps the state sound and moves records
    between the queue, the table and the worker without adding or
    dropping any. *)
Lemma step_conserves (o : Env) (i : nat) (s : State) :
  sound s ->
  sound (step o i s)
  /\ forall x, count_occ User_eq_dec (records (step o i s)) x
               = count_occ User_eq_dec (records s) x.
Proof.
  intros [Hacc Hcoh]. unfold step.
  destruct (nth_error (pool s) i) as [p|] eqn:Hp; [|now repeat split].
  pose proof (Forall_nth_error _ _ _ _ Hcoh Hp) as Hc.
  unfold sound, accounted in *.
  destruct p; cbn -[insert_all] in *;
    worker_cases;
    try (rewrite (set_nth_same _ _ _ Hp), with_pool_same; now repeat split);
    match goal with
    | |- context [set_nth i ?q (pool s)] =>
        pose proof (count_set_nth in_flight i q _ _ Hp) as Hn;
        pose proof (count_nth_error in_flight i _ _ Hp) as Hk;
        pose proof (fun x => occ_set_nth x i _ q _ Hp) as Ho;
        cbn in Hn, Hk, Ho
    end;
    try match goal with H : items (queue s) = _ |- _ => rewrite ?H end;
    ((split; [split|]);
     [ rewrite ?length_app; cbn; lia
     | apply Forall_set_nth; [assumption|cbn; rewrite ?Hc; auto]
     | intros x; specialize (Ho x); rewrite !occ_records; cbn -[insert_all];
       try match goal with H : items (queue s) = _ |- _ => rewrite ?H end;
       rewrite ?occ_insert_all, ?concat_app, ?occ_app; cbn;
       rewrite ?occ_app, ?occ_nil in *; subst; lia ]).
Qed.

Lemma run_conserves (schedule : list (nat * Env)) (s : State) :
  sound s ->
  sound (run schedule s)
  /\ Permutation (records (run schedule s)) (records s).
Proof.
  revert s. induction schedule as [|[i o] rest IH]; intros s Hs; cbn.
  - split; [assumption|apply Permutation_refl].
  - destruct (step_conserves o i s Hs) as [Hs' Hc].
    destruct (IH _ Hs') as [Hs'' Hp]. split; [assumption|].
    eapply Permutation_trans; [exact Hp|].
    now apply (Permutation_count_occ User_eq_dec).
Qed.

Lemma sound_start (rows : list User) : sound (start rows).
Proof. split; [unfold accounted; cbn; lia|repeat constructor]. Qed.

Lemma sound_put (batch : Batch) (s : State) :
  sound s -> sound (with_queue (put batch (queue s)) s).
Proof.
  intros [Ha Hc]. split; [|exact Hc]. unfold accounted in *. cbn.
  rewrite length_app. cbn. lia.
Qed.

(** Turns that fail leave the batch where it was; the turn that then
    goes through writes it. *)
Lemma attempts_until_success (failures : list Env) (ok : Env) (s : State)
  (batch : Batch) :
  Forall fails failures ->
  raised ok = None ->
  items (queue s) = [batch] ->
  unfinished (queue s) <> O ->
  table (snd (attempts (failures ++ [ok]) s)) = insert_all (table s) batch
  /\ items (queue (snd (attempts (failures ++ [ok]) s))) = [].
Proof.
  intros Hf Hok. revert s.
  induction Hf as [|o failures [Hr [Hrb Hcl]] Hf IH]; intros s Hitems Hu; cbn.
  - destruct (attempt_success ok s batch [] Hitems Hu Hok)
      as (Hi & Ht & _ & Hp).
    destruct (attempt ok s) as [p s']. cbn in *.
    destruct p; cbn; auto.
  - destruct (raised o) as [e|] eqn:He; [|contradiction].
    destruct (attempt_failure o s batch [] e Hitems He)
      as (Hi & Hn & Ht & _ & Hp).
    rewrite Hrb, Hcl in Hp.
    destruct (attempt o s) as [p s']. cbn in *. subst p.
    rewrite <- Ht. apply IH; [assumption|lia].
Qed.

(** C1: when [add_all] or [commit] raises, the turn puts the same batch
    at the tail of the queue, calls [rollback] on its session and leaves
    the table as it was; when neither raises, the table gains the whole
    batch and the batch leaves the queue. A batch that fails any number
    of times and then goes through is in the table once, and under every
    run of the pool each record stays at one place: the table, the queue
    or the hands of a worker. *)
Theorem batch_whole_or_requeued (o : Env) (s : State) (batch : Batch)
  (rest : list Batch) :
  sound s ->
  items (queue s) = batch :: rest ->
  (forall e, raised o = Some e ->
     items (queue (snd (attempt o s))) = rest ++ [batch]
     /\ table (snd (attempt o s)) = table s
     /\ trace (snd (attempt o s))
        = trace s
          ++ QGet batch :: SOpen (sessions s) :: SAddAll (sessions s) batch
             :: commit_call o (sessions s)
          ++ [QPut batch; SRollback (sessions s)]
          ++ match rollback_result o with
             | Returns _ =>
                 [LogError
                    (MsgStr "An error occurred while inserting batch: " e)]
             | Raises _ => []
             end
          ++ [SClose (sessions s)])
  /\ (raised o = None ->
      items (queue (snd (attempt o s))) = rest
      /\ table (snd (attempt o s)) = insert_all (table s) batch)
  /\ (forall failures ok,
        Forall fails failures -> raised ok = None -> rest = [] ->
        table (snd (attempts (failures ++ [ok]) s))
        = insert_all (table s) batch
        /\ items (queue (snd (attempts (failures ++ [ok]) s))) = [])
  /\ (forall schedule,
        Permutation (records (run schedule s)) (records s)).
Proof.
  intros Hs Hitems.
  assert (Hu : unfinished (queue s) <> O).
  { destruct Hs as [Ha _]. unfold accounted in Ha. rewrite Hitems in Ha.
    cbn in Ha. lia. }
  repeat split.
  - now apply (attempt_failure o s batch rest e).
  - now apply (attempt_failure o s batch rest e).
  - now apply (attempt_failure o s batch rest e).
  - now apply (attempt_success o s batch rest).
  - now apply (attempt_success o s batch rest).
  - subst rest. now apply (attempts_until_success failures ok s batch).
  - subst rest. now apply (attempts_until_success failures ok s batch).
  - intros schedule. now apply run_conserves.
Qed.

Lemma batch_whole_or_requeued_witness :
  table (snd (attempts [commit_raises; commit_raises; all_return] one_batch))
  = insert_all [] [ada]
  /\ items (queue (snd (attempt commit_raises one_batch))) = [[ada]].
Proof.
  assert (Hs : sound one_batch) by (apply sound_put, sound_start).
  pose proof (batch_whole_or_requeued commit_raises one_batch [ada] []
                Hs eq_refl) as (Hfail & _ & Hretry & _).
  split.
  - apply (Hretry [commit_raises; commit_raises] all_return);
      [|reflexivity|reflexivity].
    repeat constructor; discriminate.
  - apply (Hfail (PersistenceError "connection lost") eq_refl).
Defined.

(** C10: when [rollback] raises after a failed insert, the batch is
    already back at the tail of the queue, [put] standing before
    [rollback] in the trace; the exception leaves the loop, the task of
    that worker has ended, and whatever the pool does next it has fewer
    live workers than before, fewer than five when all five were
    waiting. *)
Theorem rollback_failure_ends_worker (o : Env) (i : nat) (s : State)
  (batch : Batch) (rest : list Batch) (e e1 : exn) :
  items (queue s) = batch :: rest ->
  nth_error (pool s) i = Some Waiting ->
  raised o = Some e ->
  rollback_result o = Raises e1 ->
  trace (iteration o i s)
  = trace s
    ++ QGet batch :: SOpen (sessions s) :: SAddAll (sessions s) batch
       :: commit_call o (sessions s)
    ++ [QPut batch; SRollback (sessions s); SClose (sessions s)]
  /\ items (queue (iteration o i s)) = rest ++ [batch]
  /\ nth_error (pool (iteration o i s)) i
     = Some (Dead match close_result o with
                  | Returns _ => e1
                  | Raises e2 => e2
                  end)
  /\ (forall schedule,
        (alive (run schedule (iteration o i s)) < alive s)%nat)
  /\ (pool s = repeat Waiting workers ->
      forall schedule,
        (alive (run schedule (iteration o i s)) < workers)%nat).
Proof.
  intros Hitems Hp Hr Hrb.
  destruct (attempt_failure o s batch rest e Hitems Hr)
    as (Hi & _ & _ & Ht & Hpc).
  rewrite Hrb in Ht, Hpc. rewrite (iteration_attempt _ _ _ Hp).
  assert (Hdead : fst (attempt o s)
                  = Dead match close_result o with
                         | Returns _ => e1
                         | Raises e2 => e2
                         end)
    by (rewrite Hpc; now destruct (close_result o)).
  assert (Halive : forall schedule,
    (alive (run schedule
              (with_pool (set_nth i (fst (attempt o s)) (pool s))
                         (snd (attempt o s)))) < alive s)%nat).
  { intros schedule.
    pose proof (alive_run schedule
                  (with_pool (set_nth i (fst (attempt o s)) (pool s))
                             (snd (attempt o s)))) as Hle.
    pose proof (count_set_nth (fun p => negb (is_dead p)) i
                  (fst (attempt o s)) _ _ Hp) as Hc.
    rewrite Hdead in Hc. cbn in Hc. unfold alive in *. cbn in *.
    rewrite Hdead in Hle |- *. lia. }
  repeat split.
  - exact Ht.
  - exact Hi.
  - cbn. rewrite Hdead. now apply nth_error_set_nth with (y := Waiting).
  - exact Halive.
  - intros Hpool schedule.
    assert (Hfive : alive s = workers)
      by (unfold alive; rewrite Hpool; reflexivity).
    rewrite <- Hfive. apply Halive.
Qed.

Lemma rollback_failure_ends_worker_witness :
  items (queue (iteration rollback_raises 2 one_batch)) = [[ada]]
  /\ nth_error (pool (iteration rollback_raises 2 one_batch)) 2
     = Some (Dead (PersistenceError "connection lost"))
  /\ (alive (run [(0%nat, all_return)]
                (iteration rollback_raises 2 one_batch)) < workers)%nat.
Proof.
  assert (H1 : items (queue one_batch) = [[ada]]) by reflexivity.
  assert (H2 : nth_error (pool one_batch) 2 = Some Waiting) by reflexivity.
  assert (H3 : raised rollback_raises
               = Some (PersistenceError "connection lost")) by reflexivity.
  assert (H4 : rollback_result rollback_raises
               = Raises (PersistenceError "connection lost")) by reflexivity.
  pose proof (rollback_failure_ends_worker rollback_raises 2 one_batch
                [ada] [] _ _ H1 H2 H3 H4) as (_ & Hi & Hd & _ & Ha).
  assert (H5 : pool one_batch = repeat Waiting workers) by reflexivity.
  split; [exact Hi|split; [exact Hd|exact (Ha H5 [(0%nat, all_return)])]].
Defined.

(** ** Session numbers are given once *)

Lemma in_set_nth {A : Type} (i : nat) (x y : A) (l : list A) :
  In y (set_nth i x l) -> y = x \/ In y l.
Proof.
  revert i. induction l as [|a l IH]; intros [|i] H; cbn in *; auto.
  - destruct H as [<-|H]; auto.
  - destruct H as [<-|H]; auto. destruct (IH i H); auto.
Qed.

Lemma numbered_start (rows : list User) : numbered (start rows).
Proof.
  split.
  - intros e n [].
  - intros p n Hin Hs. apply repeat_spec in Hin. subst p. discriminate.
Qed.

Lemma numbered_queue (q : Queue) (s : State) :
  numbered s -> numbered (with_queue q s).
Proof. intros H. exact H. Qed.

Lemma step_numbered (o : Env) (i : nat) (s : State) :
  numbered s -> numbered (step o i s).
Proof.
  intros [Ht Hq]. unfold step.
  destruct (nth_error (pool s) i) as [p|] eqn:Hp; [|now split].
  assert (Hsid : forall n, session_at p = Some n -> (n < sessions s)%nat)
    by (intros n; apply Hq; now apply nth_error_In with (n := i)).
  destruct p; cbn -[insert_all] in *; worker_cases;
    (split;
     [ intros ev sn Hin Hs; cbn in Hin |- *;
       try (apply in_app_or in Hin; destruct Hin as [Hin|Hin]);
       first
         [ pose proof (Ht _ _ Hin Hs); lia
         | cbn in Hin;
           repeat (destruct Hin as [Hin|Hin]); try contradiction;
           subst ev; cbn in Hs; try discriminate; injection Hs as <-;
           try pose proof (Hsid _ eq_refl); lia ]
     | intros q sn Hin Hs; cbn in Hin |- *;
       apply in_set_nth in Hin as [->|Hin];
       [ cbn in Hs; try discriminate; injection Hs as <-;
         try pose proof (Hsid _ eq_refl); lia
       | pose proof (Hq _ _ Hin Hs); lia ] ]).
Qed.

Lemma run_numbered (schedule : list (nat * Env)) (s : State) :
  numbered s -> numbered (run schedule s).
Proof.
  revert s. induction schedule as [|[i o] rest IH]; intros s H; cbn;
    [assumption|]. apply IH. now apply step_numbered.
Qed.

(** C4: a turn of the loop that takes a batch opens a session whose
    number no earlier call has used, makes all its session calls on it,
    and ends with [close] on it, whatever [add_all], [commit],
    [task_done], [rollback] and [close] itself do; and whatever the pool
    does, session numbers stay below the next one to give, so that the
    next session is new again. *)
Theorem session_always_closed (o : Env) (s : State)
  (batch : Batch) (rest : list Batch) :
  items (queue s) = batch :: rest ->
  numbered s ->
  exists calls,
    trace (snd (attempt o s))
    = trace s ++ QGet batch :: SOpen (sessions s) :: calls
    /\ last calls Next = SClose (sessions s)
    /\ forallb (on_session (sessions s)) calls = true
    /\ (forall e, In e (trace s) -> uses_session (sessions s) e = false)
    /\ sessions (snd (attempt o s)) = S (sessions s)
    /\ idle (fst (attempt o s)) = true
    /\ (forall schedule, numbered (run schedule s)).
Proof.
  intros Hitems Hnumbered.
  assert (Hrun : forall schedule, numbered (run schedule s))
    by (intros schedule; now apply run_numbered).
  destruct Hnumbered as [Hnum _].
  assert (Hfresh : forall e, In e (trace s) ->
                             uses_session (sessions s) e = false).
  { intros e He. unfold uses_session.
    destruct (session_of e) as [m|] eqn:Hm; [|reflexivity].
    apply Nat.eqb_neq. specialize (Hnum e m He Hm). lia. }
  destruct o as [[[]|ea] [[]|ec] [[]|er] [[]|ecl]];
    destruct (unfinished (queue s)) as [|u] eqn:Hu;
    run_body Hitems; rewrite ?Hu; cbn -[insert_all];
    rewrite <- ?app_assoc; cbn [app];
    eexists; (split; [reflexivity|]); cbn; rewrite ?Nat.eqb_refl;
    do 5 (split; [auto|]); exact Hrun.
Qed.

Lemma session_always_closed_witness :
  exists calls,
    trace (snd (attempt rollback_raises one_batch))
    = QGet [ada] :: SOpen 0 :: calls
    /\ last calls Next = SClose 0.
Proof.
  assert (H1 : items (queue one_batch) = [[ada]]) by reflexivity.
  assert (H2 : numbered one_batch)
    by (apply numbered_queue, numbered_start).
  destruct (session_always_closed rollback_raises one_batch [ada] [] H1 H2)
    as (calls & Ht & Hl & _).
  exists calls. split; [exact Ht|exact Hl].
Defined.

(** ** The producer *)

Lemma chunk_concat {A : Type} (n k : nat) (acc l : list A) :
  List.concat (Csv.chunk n k acc l) = rev acc ++ l.
Proof.
  revert k acc. induction l as [|x rest IH]; intros k acc; cbn.
  - destruct acc; cbn; now rewrite ?app_nil_r.
  - destruct k as [|[|k']]; cbn [List.concat]; rewrite IH; cbn;
      now rewrite <- ?app_assoc.
Qed.

Lemma chunk_map {A B : Type} (f : A -> B) (n k : nat) (acc l : list A) :
  map (map f) (Csv.chunk n k acc l) = Csv.chunk n k (map f acc) (map f l).
Proof.
  revert k acc. induction l as [|x rest IH]; intros k acc.
  - destruct acc as [|a acc]; [reflexivity|].
    cbn [Csv.chunk map]. now rewrite map_rev.
  - cbn [Csv.chunk map]. destruct k as [|[|k']].
    + cbn [map]. rewrite IH. now rewrite (map_rev f (x :: acc)).
    + cbn [map]. rewrite IH. now rewrite (map_rev f (x :: acc)).
    + now rewrite IH.
Qed.



Lemma has_columns_index (cols : list string) (key : string) :
  has_columns cols = true -> In key required ->
  exists j, Csv.index_of key cols = Some j.
Proof.
  intros H Hin. unfold has_columns in H.
  rewrite forallb_forall in H. specialize (H key Hin).
  unfold has_column in H.
  destruct (Csv.index_of key cols) as [j|]; [now exists j|discriminate].
Qed.

Lemma user_of_row_ok (cols : list string) (row : list value) :
  has_columns cols = true ->
  user_of_row cols row = Returns (user_of cols row).
Proof.
  intros H. unfold user_of_row, user_of, cell_at, Csv.getitem.
  destruct (has_columns_index cols "FirstName" H) as [j1 ->];
    [cbn; auto|].
  destruct (has_columns_index cols "LastName" H) as [j2 ->];
    [cbn; auto|].
  destruct (has_columns_index cols "Age" H) as [j3 ->]; [cbn; auto|].
  destruct (has_columns_index cols "Email" H) as [j4 ->]; [cbn; auto 6|].
  reflexivity.
Qed.

Lemma users_of_rows_ok (cols : list string) (rs : list (list value)) :
  has_columns cols = true ->
  users_of_rows cols rs = Returns (map (user_of cols) rs).
Proof.
  intros H. induction rs as [|r rs IH]; cbn; [reflexivity|].
  now rewrite user_of_row_ok, IH.
Qed.

Lemma users_of_frame (df : Csv.DataFrame) :
  has_columns (Csv.columns df) = true ->
  users_of_chunk df = Returns (batch_of df).
Proof. intros H. unfold users_of_chunk. now apply users_of_rows_ok. Qed.



(** The loop over a reader that first yields frames it can turn into
    batches. *)
Lemma for_chunks_yields (batch : Csv.DataFrame -> Batch)
  (frames : list Csv.DataFrame) (last : Csv.reader) (s : State) :
  (forall df, In df frames -> users_of_chunk df = Returns (batch df)) ->
  for_chunks (Csv.yields frames last) s
  = for_chunks last (queued (map batch frames) s).
Proof.
  revert s. induction frames as [|df frames IH]; intros s H; cbn;
    [reflexivity|].
  rewrite (H df) by now left. apply IH. intros df' Hin. apply H. now right.
Qed.

Lemma queued_items (batches : list Batch) (s : State) :
  items (queue (queued batches s)) = items (queue s) ++ batches.
Proof.
  revert s. induction batches as [|b rest IH]; intros s; cbn.
  - now rewrite app_nil_r.
  - rewrite IH. cbn. now rewrite <- app_assoc.
Qed.



(** *** What the loop does with the frames of any reader *)

(** The reader yields frames with the four columns and stops: one batch
    for each frame, each put on the queue before the reader is asked
    again. *)
Lemma producer_frames (beyond : string -> nat -> Csv.reader)
  (file_content : list byte) (filename : string) (s : State)
  (text : string) (frames : list Csv.DataFrame) :
  Utf8.decode file_content = Returns text ->
  Csv.read_csv beyond text chunk_size = Csv.yields frames Csv.RStop ->
  Forall (fun df => has_columns (Csv.columns df) = true) frames ->
  process_csv_async beyond file_content filename s
  = (emit [LogInfo (Msg ("CSV file '" ++ filename
                         ++ "' is being processed in the background."))]
       (emit [Next] (queued (map batch_of frames) s)),
     Returns tt).
Proof.
  intros Hdec Hread Hcols. unfold process_csv_async.
  rewrite Hdec, Hread. rewrite (for_chunks_yields batch_of); [reflexivity|].
  intros df Hin. apply users_of_frame.
  rewrite Forall_forall in Hcols. now apply Hcols.
Qed.



(** *** The frames of a plain text *)

Lemma is_digit_digit (c : ascii) :
  Csv.is_digit c = true -> exists d, Csv.digit c = Some d.
Proof.
  unfold Csv.is_digit, Csv.digit, Csv.code. intros H.
  apply andb_true_iff in H as [H1 H2]. apply Nat.leb_le in H1, H2.
  destruct (Z.leb_spec 48 (Z.of_nat (nat_of_ascii c))); [|lia].
  destruct (Z.leb_spec (Z.of_nat (nat_of_ascii c)) 57); [|lia].
  cbn. eauto.
Qed.

Lemma digits_value_some (s : string) (acc : Z) :
  forallb Csv.is_digit (list_ascii_of_string s) = true ->
  exists z, Csv.digits_value acc s = Some z.
Proof.
  revert acc. induction s as [|c r IH]; intros acc H;
    cbn [list_ascii_of_string forallb Csv.digits_value] in *.
  - eauto.
  - apply andb_true_iff in H as [Hc Hr].
    destruct (is_digit_digit c Hc) as [d ->]. now apply IH.
Qed.

Lemma numeral_unsigned (s : string) :
  Csv.numeral s = true -> exists z, Csv.unsigned s = Some z.
Proof.
  destruct s as [|c r]; [discriminate|]. unfold Csv.numeral, Csv.unsigned.
  intros H. apply andb_true_iff in H as [H _].
  apply andb_true_iff in H as [H _]. now apply digits_value_some.
Qed.

(** An integer literal of the fragment is one for the reader. *)
Lemma plain_int_is_int (s : string) :
  Csv.plain_int s = true -> Csv.is_int s = true.
Proof.
  destruct s as [|c r]; [discriminate|].
  unfold Csv.plain_int, Csv.is_int, Csv.parse_int.
  destruct (Ascii.eqb c "-") eqn:Em; intros H.
  - destruct (numeral_unsigned r H) as [z ->]. reflexivity.
  - destruct (Ascii.eqb_spec c "+") as [->|_].
    + vm_compute in H. discriminate.
    + destruct (numeral_unsigned _ H) as [z ->]. reflexivity.
Qed.

Lemma letter_not_digit (c : ascii) :
  Csv.is_letter c = true -> Csv.digit c = None.
Proof.
  unfold Csv.is_letter, Csv.is_upper, Csv.digit, Csv.code. intros H.
  destruct (Z.leb_spec (Z.of_nat (nat_of_ascii c)) 57) as [Hle|Hgt];
    [|now rewrite andb_false_r].
  apply orb_true_iff in H as [H|H]; apply andb_true_iff in H as [H1 H2];
    apply Nat.leb_le in H1, H2; lia.
Qed.

(** A word is no integer literal and no missing value. *)
Lemma word_not_int (s : string) :
  Csv.is_word s = true -> Csv.parse_int s = None.
Proof.
  destruct s as [|c r]; [discriminate|]. unfold Csv.is_word. intros H.
  apply andb_true_iff in H as [H _]. apply andb_true_iff in H as [H _].
  unfold Csv.parse_int.
  destruct (Ascii.eqb_spec c "-") as [->|_]; [discriminate|].
  destruct (Ascii.eqb_spec c "+") as [->|_]; [discriminate|].
  cbn [Csv.unsigned Csv.digits_value]. now rewrite (letter_not_digit c H).
Qed.

Lemma word_not_na (s : string) :
  Csv.is_word s = true -> Csv.is_na s = false.
Proof.
  intros H. destruct (Csv.is_na s) eqn:E; [|reflexivity]. exfalso.
  unfold Csv.is_na in E. apply existsb_exists in E as (v & Hin & Heq).
  apply String.eqb_eq in Heq. subst v. unfold Csv.na_values in Hin.
  cbn [In] in Hin.
  repeat (destruct Hin as [<-|Hin]; [vm_compute in H; discriminate|]).
  exact Hin.
Qed.

(** In a column of one kind the reader gives every cell the value the
    cell has by itself. *)
Lemma column_value (raw : list (list string)) (j : nat)
  (tokens : list string) :
  Csv.column_ok raw j = true -> In tokens raw ->
  Csv.type_cell (Csv.int_column raw j) (Csv.cell j tokens)
  = plain_value (Csv.cell j tokens).
Proof.
  intros Hok Hin. unfold Csv.column_ok in Hok.
  apply orb_true_iff in Hok as [Hint|Hw].
  - rewrite forallb_forall in Hint.
    assert (Hk : Csv.int_column raw j = true).
    { unfold Csv.int_column. apply forallb_forall. intros t Ht.
      now apply plain_int_is_int, Hint. }
    rewrite Hk. unfold Csv.type_cell, plain_value.
    pose proof (plain_int_is_int _ (Hint _ Hin)) as Hi.
    unfold Csv.is_int in Hi.
    now destruct (Csv.parse_int (Csv.cell j tokens)).
  - apply andb_true_iff in Hw as [Hall Hsome].
    apply existsb_exists in Hsome as (w & Hwin & Hw).
    assert (Hk : Csv.int_column raw j = false).
    { unfold Csv.int_column. apply not_true_is_false. intros Hc.
      rewrite forallb_forall in Hc. specialize (Hc w Hwin).
      unfold Csv.is_int in Hc. rewrite (word_not_int _ Hw) in Hc.
      discriminate. }
    rewrite Hk. unfold Csv.type_cell, plain_value.
    rewrite forallb_forall in Hall. specialize (Hall _ Hin).
    apply orb_true_iff in Hall as [Hword|Hempty].
    + rewrite (word_not_na _ Hword), (word_not_int _ Hword).
      now destruct (Csv.cell j tokens).
    + apply String.eqb_eq in Hempty. now rewrite Hempty.
Qed.

Lemma nth_map_seq {A : Type} (f : nat -> A) (n j : nat) (d : A) :
  (j < n)%nat -> nth j (map f (seq 0 n)) d = f j.
Proof.
  intros H.
  rewrite (nth_indep _ d (f O)) by (rewrite length_map, length_seq; lia).
  rewrite map_nth. now rewrite seq_nth.
Qed.

Lemma index_of_lt (key : string) (cols : list string) (j : nat) :
  Csv.index_of key cols = Some j -> (j < List.length cols)%nat.
Proof.
  revert j. induction cols as [|c cols IH]; intros j H; cbn in *;
    [discriminate|].
  destruct (String.eqb c key); [injection H as <-; lia|].
  destruct (Csv.index_of key cols) as [i|]; [|discriminate].
  injection H as <-. specialize (IH i eq_refl). lia.
Qed.

Lemma frame_row (cols : list string) (raw : list (list string))
  (tokens : list string) (key : string) :
  forallb (Csv.column_ok raw) (seq 0 (List.length cols)) = true ->
  In tokens raw ->
  cell_at cols
    (Csv.typed_row (map (Csv.int_column raw) (seq 0 (List.length cols)))
                   tokens) key
  = field_of cols tokens key.
Proof.
  intros Hok Hin. unfold cell_at, field_of.
  destruct (Csv.index_of key cols) as [j|] eqn:E; [|reflexivity].
  pose proof (index_of_lt _ _ _ E) as Hj.
  unfold Csv.typed_row. rewrite length_map, length_seq.
  rewrite nth_map_seq by exact Hj. rewrite nth_map_seq by exact Hj.
  apply column_value; [|exact Hin].
  rewrite forallb_forall in Hok. apply Hok, in_seq. lia.
Qed.

(** The batch of the frame of a group of lines holds the record of each
    line, in the order of the lines. *)
Lemma batch_of_frame (cols : list string) (group : list (nat * string)) :
  forallb (Csv.column_ok (map Csv.fields group)) (seq 0 (List.length cols))
  = true ->
  batch_of (Csv.frame cols (map Csv.fields group))
  = map (record_of cols) group.
Proof.
  intros Hok. unfold batch_of, Csv.frame. cbn [Csv.columns Csv.rows].
  rewrite !map_map. apply map_ext_in. intros line Hin.
  unfold user_of, record_of.
  rewrite !(frame_row cols (map Csv.fields group) (Csv.fields line))
    by (try assumption; now apply in_map).
  reflexivity.
Qed.

Lemma plain_columns (n : nat) (text : string) (header : nat * string)
  (data : list (nat * string)) :
  Csv.records text = header :: data -> Csv.plain n text = true ->
  data <> []
  /\ forallb (fun group =>
                forallb (Csv.column_ok group)
                        (seq 0 (List.length (Csv.fields header))))
             (Csv.chunk n n [] (map Csv.fields data)) = true.
Proof.
  intros Hrec H. unfold Csv.plain in H. rewrite Hrec in H.
  apply andb_true_iff in H as [_ H]. cbv zeta in H.
  apply andb_true_iff in H as [H Hg]. apply andb_true_iff in H as [H _].
  apply andb_true_iff in H as [_ Hne]. split; [|exact Hg].
  intros ->. discriminate.
Qed.

Lemma read_csv_plain (beyond : string -> nat -> Csv.reader)
  (text : string) (n : nat) (header : nat * string)
  (data : list (nat * string)) :
  n <> O -> Csv.records text = header :: data -> Csv.plain n text = true ->
  Csv.read_csv beyond text n
  = Csv.yields (map (Csv.frame (Csv.fields header))
                    (Csv.chunk n n [] (map Csv.fields data)))
               Csv.RStop.
Proof.
  intros Hn Hrec Hp. unfold Csv.read_csv. destruct n; [contradiction|].
  now rewrite Hrec, Hp.
Qed.

Lemma plain_batches (n : nat) (text : string) (header : nat * string)
  (data : list (nat * string)) :
  Csv.records text = header :: data -> Csv.plain n text = true ->
  map batch_of (map (Csv.frame (Csv.fields header))
                    (Csv.chunk n n [] (map Csv.fields data)))
  = Csv.chunk n n [] (map (record_of (Csv.fields header)) data).
Proof.
  intros Hrec Hp. destruct (plain_columns n text header data Hrec Hp)
    as [_ Hok].
  pose proof (chunk_map Csv.fields n n [] data) as Hf. cbn [map] in Hf.
  pose proof (chunk_map (record_of (Csv.fields header)) n n [] data) as Hr.
  cbn [map] in Hr. rewrite <- Hf in *. rewrite <- Hr. rewrite !map_map.
  apply map_ext_in. intros group Hin. apply batch_of_frame.
  rewrite forallb_forall in Hok. apply Hok. now apply in_map.
Qed.

(** *** What the producer does with a plain text *)

(** A plain upload with the four columns is read to its end: the
    records of the data lines, cut into batches, each put on the queue
    before the reader is asked again. Nothing is asked of the cells. *)
Lemma producer_plain (beyond : string -> nat -> Csv.reader)
  (file_content : list byte) (filename : string) (s : State)
  (text : string) (header : nat * string) (data : list (nat * string)) :
  Utf8.decode file_content = Returns text ->
  Csv.records text = header :: data ->
  Csv.plain chunk_size text = true ->
  has_columns (Csv.fields header) = true ->
  process_csv_async beyond file_content filename s
  = (emit [LogInfo (Msg ("CSV file '" ++ filename
                         ++ "' is being processed in the background."))]
       (emit [Next]
          (queued (Csv.chunk chunk_size chunk_size []
                     (map (record_of (Csv.fields header)) data)) s)),
     Returns tt).
Proof.
  intros Hdec Hrec Hp Hcols.
  rewrite (producer_frames beyond _ filename s text
             (map (Csv.frame (Csv.fields header))
                  (Csv.chunk chunk_size chunk_size []
                     (map Csv.fields data))) Hdec).
  - now rewrite (plain_batches _ _ _ _ Hrec Hp).
  - now apply read_csv_plain.
  - apply Forall_forall. intros df Hin.
    apply in_map_iff in Hin as (g & <- & _). exact Hcols.
Qed.







(** ** The upload and its task *)

Lemma run_created_task (beyond : string -> nat -> Csv.reader)
  (file_content : list byte) (name : string) (s : State) :
  tasks s = [] ->
  run_task beyond (create_task (ProcessCsv file_content name) s)
  = (fst (process_csv_async beyond file_content name s),
     Some (snd (process_csv_async beyond file_content name s))).
Proof.
  intros Ht. unfold run_task, create_task. cbn [tasks with_tasks].
  rewrite Ht. cbn [app].
  replace (with_tasks [] (with_tasks [ProcessCsv file_content name] s))
    with s by (destruct s; cbn in *; now subst).
  now destruct (process_csv_async beyond file_content name s).
Qed.




(** ** The producer keeps what the worker relies on *)

Lemma for_chunks_sound (r : Csv.reader) (s : State) :
  sound s -> sound (fst (for_chunks r s)).
Proof.
  revert s. induction r as [|e|chunk rest IH]; intros s Hs; cbn;
    try exact Hs.
  destruct (users_of_chunk chunk) as [users|e]; [|exact Hs].
  apply IH. exact (sound_put users s Hs).
Qed.

Lemma process_csv_async_sound (beyond : string -> nat -> Csv.reader)
  (file_content : list byte) (filename : string) (s : State) :
  sound s -> sound (fst (process_csv_async beyond file_content filename s)).
Proof.
  intros Hs. unfold process_csv_async.
  destruct (Utf8.decode file_content) as [text|e]; [|exact Hs].
  pose proof (for_chunks_sound (Csv.read_csv beyond text chunk_size) s Hs)
    as H.
  destruct (for_chunks (Csv.read_csv beyond text chunk_size) s)
    as [s' [[]|e]]; exact H.
Qed.

Lemma numbered_emit (es : list event) (s : State) :
  (forall e, In e es -> session_of e = None) ->
  numbered s -> numbered (emit es s).
Proof.
  intros Hes [Ht Hq]. split; [|exact Hq].
  intros e n Hin Hs. cbn in Hin. apply in_app_or in Hin as [Hin|Hin].
  - exact (Ht e n Hin Hs).
  - rewrite (Hes e Hin) in Hs. discriminate.
Qed.

Lemma for_chunks_numbered (r : Csv.reader) (s : State) :
  numbered s -> numbered (fst (for_chunks r s)).
Proof.
  revert s. induction r as [|e|chunk rest IH]; intros s Hs; cbn.
  - apply numbered_emit; [|exact Hs]. now intros e [<-|[]].
  - apply numbered_emit; [|exact Hs]. now intros e' [<-|[]].
  - destruct (users_of_chunk chunk) as [users|e].
    + apply IH. apply numbered_emit; [|exact Hs].
      now intros e [<-|[<-|[]]].
    + apply numbered_emit; [|exact Hs]. now intros e' [<-|[]].
Qed.

(** * Further properties *)

(** ** Pages of [get_users] *)

Section Pages.

Variable negative_window : Z -> Z -> list User -> outcome (list User).

Lemma page_data_window (limit page : Z) (rows : list User) :
  1 <= limit -> 1 <= page ->
  page_data negative_window limit page rows
  = firstn (Z.to_nat limit) (skipn (Z.to_nat ((page - 1) * limit)) rows).
Proof.
  intros Hl Hp. unfold page_data, Query.get_users.
  rewrite window_in_range by nia.
  unfold Query.floordiv. destruct (Z.eqb_spec limit 0) as [?|_]; [lia|].
  cbn. unfold Query.model_validate. now rewrite map_id.
Qed.

Lemma page_count_ceiling (limit : Z) (rows : list User) :
  1 <= limit ->
  page_count negative_window limit rows
  = (Z.of_nat (List.length rows) + limit - 1) / limit.
Proof.
  intros Hl. unfold page_count, Query.get_users.
  rewrite window_in_range by nia.
  unfold Query.floordiv. destruct (Z.eqb_spec limit 0) as [?|_]; [lia|].
  reflexivity.
Qed.

Lemma firstn_plus {A : Type} (a b : nat) (l : list A) :
  firstn (a + b) l = firstn a l ++ firstn b (skipn a l).
Proof.
  revert l. induction a as [|a IH]; intros l; [reflexivity|].
  destruct l as [|x l]; cbn; [now rewrite firstn_nil|]. now rewrite IH.
Qed.

Lemma windows_concat {A : Type} (size count : nat) (l : list A) :
  List.concat (map (fun k => firstn size (skipn (k * size) l)) (seq 0 count))
  = firstn (count * size) l.
Proof.
  induction count as [|m IH]; [reflexivity|].
  rewrite seq_S, map_app, concat_app, IH. cbn [map List.concat plus].
  rewrite app_nil_r.
  replace (S m * size)%nat with (m * size + size)%nat by lia.
  now rewrite firstn_plus.
Qed.

(** X1: for limit >= 1, the pages 1 to [total_pages] of [get_users],
    one after the other, are the rows of the table, each once and in
    the order of the table. *)
Theorem pages_cover_table (limit : Z) (rows : list User) :
  1 <= limit ->
  List.concat
    (map (fun k => page_data negative_window limit (Z.of_nat k) rows)
         (seq 1 (Z.to_nat (page_count negative_window limit rows))))
  = rows.
Proof.
  intros Hl. rewrite page_count_ceiling by assumption.
  pose proof (ceiling_bounds (Z.of_nat (List.length rows)) limit Hl) as Hc.
  set (pages := (Z.of_nat (List.length rows) + limit - 1) / limit) in *.
  rewrite <- seq_shift, map_map.
  rewrite (map_ext _ (fun k => firstn (Z.to_nat limit)
                                 (skipn (k * Z.to_nat limit) rows))).
  - rewrite windows_concat. apply firstn_all2. nia.
  - intros k. rewrite page_data_window by lia. do 2 f_equal. nia.
Qed.

(** X2: for page >= 1 and limit >= 1, a page has at most [limit]
    records; [next_page] is true exactly when rows lie beyond the page,
    and then the page is full; a page beyond [total_pages] is empty; and
    [total_pages] is 0 exactly for an empty table. *)
Theorem page_bounds (limit page : Z) (rows : list User)
  (r : Query.UsersResponse) :
  1 <= page -> 1 <= limit ->
  Query.get_users negative_window limit page rows = Returns r ->
  Z.of_nat (List.length (Query.users_data r)) <= limit
  /\ (Query.next_page r = true <-> page * limit < Z.of_nat (List.length rows))
  /\ (Query.next_page r = true ->
      Z.of_nat (List.length (Query.users_data r)) = limit)
  /\ (Query.total_pages r < page -> Query.users_data r = [])
  /\ (Query.total_pages r = 0 <-> rows = []).
Proof.
  intros Hp Hl Hr.
  pose proof (page_data_window limit page rows Hl Hp) as Hd.
  unfold page_data in Hd. rewrite Hr in Hd.
  pose proof (ceiling_bounds (Z.of_nat (List.length rows)) limit Hl) as Hc.
  unfold Query.get_users in Hr. rewrite window_in_range in Hr by nia.
  unfold Query.floordiv in Hr.
  destruct (Z.eqb_spec limit 0) as [?|_]; [lia|].
  injection Hr as <-. cbn [Query.users_data Query.total_pages Query.next_page]
    in *.
  set (pages := (Z.of_nat (List.length rows) + limit - 1) / limit) in *.
  assert (Hlen : List.length (map Query.model_validate
                   (firstn (Z.to_nat limit)
                      (skipn (Z.to_nat ((page - 1) * limit)) rows)))
                 = Nat.min (Z.to_nat limit)
                     (List.length rows - Z.to_nat ((page - 1) * limit))).
  { now rewrite length_map, length_firstn, length_skipn. }
  rewrite Hlen. repeat split.
  - lia.
  - intros H. apply Z.ltb_lt in H. nia.
  - intros H. apply Z.ltb_lt. nia.
  - intros H. apply Z.ltb_lt in H. nia.
  - intros H. apply length_zero_iff_nil. rewrite Hlen. nia.
  - intros H. apply length_zero_iff_nil. nia.
  - intros ->. cbn in *. nia.
Qed.

End Pages.

Lemma pages_cover_table_witness :
  List.concat
    (map (fun k => page_data (fun _ _ rows => Returns rows) 10 (Z.of_nat k) (repeat ada 25))
         (seq 1 (Z.to_nat (page_count (fun _ _ rows => Returns rows) 10 (repeat ada 25)))))
  = repeat ada 25.
Proof.
  assert (H : 1 <= 10) by lia.
  exact (pages_cover_table (fun _ _ rows => Returns rows) 10
           (repeat ada 25) H).
Defined.

Lemma page_bounds_witness :
  exists r,
    Query.get_users (fun _ _ rows => Returns rows) 10 2 (repeat ada 25) = Returns r
    /\ Z.of_nat (List.length (Query.users_data r)) = 10.
Proof.
  assert (H1 : 1 <= 2) by lia.
  assert (H2 : 1 <= 10) by lia.
  assert (H3 : Query.get_users (fun _ _ rows => Returns rows) 10 2 (repeat ada 25)
               = Returns (Query.mkUsersResponse true
                            (map Query.model_validate
                               (firstn 10 (skipn 10 (repeat ada 25))))
                            3 true)).
  { unfold Query.get_users. rewrite window_in_range by lia. reflexivity. }
  eexists. split; [exact H3|].
  apply (proj1 (proj2 (proj2 (page_bounds (fun _ _ rows => Returns rows) 10 2
                           (repeat ada 25) _ H1 H2 H3)))).
  reflexivity.
Defined.

(** X3: when no two rows of the table share an identifier, [get_user]
    with the identifier of a row returns that very row. *)
Theorem get_user_unique (user_id : Z) (rows : list User) (u : User) :
  NoDup (map id rows) ->
  In u rows ->
  id u = Some user_id ->
  Query.get_user user_id rows = Returns (Query.mkUserResponse true u).
Proof.
  intros Hnd Hin Hid. unfold Query.get_user, Query.first_with_id.
  induction rows as [|a rows IH]; [contradiction|].
  cbn [map] in Hnd. apply NoDup_cons_iff in Hnd as [Hnot Hnd]. cbn [find].
  destruct (Query.has_id user_id a) eqn:Ha.
  - apply has_id_true in Ha. destruct Hin as [->|Hin]; [reflexivity|].
    exfalso. apply Hnot. rewrite Ha, <- Hid. now apply in_map.
  - destruct Hin as [->|Hin].
    + apply has_id_true in Hid. congruence.
    + now apply IH.
Qed.

Lemma get_user_unique_witness :
  Query.get_user 2 [with_id 1 ada; with_id 2 ada; with_id 3 ada]
  = Returns (Query.mkUserResponse true (with_id 2 ada)).
Proof.
  apply get_user_unique.
  - repeat constructor; cbn; intuition discriminate.
  - cbn. auto.
  - reflexivity.
Defined.

(** ** Turns of the worker, one after the other *)

Lemma attempt_sessions (o : Env) (s : State) (batch : Batch)
  (rest : list Batch) :
  items (queue s) = batch :: rest ->
  sessions (snd (attempt o s)) = S (sessions s).
Proof.
  intros Hitems.
  destruct o as [[[]|ea] [[]|ec] [[]|er] [[]|ecl]];
    destruct (unfinished (queue s)) as [|u] eqn:Hu;
    run_body Hitems; rewrite ?Hu; reflexivity.
Qed.

Lemma attempt_success_count (o : Env) (s : State) (batch : Batch)
  (rest : list Batch) :
  items (queue s) = batch :: rest ->
  raised o = None ->
  S (unfinished (queue (snd (attempt o s)))) = unfinished (queue s)
  \/ unfinished (queue s) = O.
Proof.
  intros Hitems Hr. unfold raised in Hr.
  destruct (unfinished (queue s)) as [|u] eqn:Hq; [now right|left].
  destruct o as [[[]|ea] [[]|ec] [[]|er] [[]|ecl]]; cbn in Hr;
    try discriminate;
    run_body Hitems; rewrite ?Hq; reflexivity.
Qed.

(** X4: a batch that fails at every turn is tried again at every turn:
    after any number of failing turns the worker is still in its loop,
    the queue still holds the batch, the table is as it was, each turn
    has opened a session of its own, and the count of unfinished items
    has grown by one for each turn, [task_done] not being called on
    that path. *)
Theorem failing_batch_is_retried (os : list Env) (s : State)
  (batch : Batch) :
  Forall fails os ->
  items (queue s) = [batch] ->
  fst (attempts os s) = Waiting
  /\ items (queue (snd (attempts os s))) = [batch]
  /\ table (snd (attempts os s)) = table s
  /\ sessions (snd (attempts os s)) = (sessions s + List.length os)%nat
  /\ unfinished (queue (snd (attempts os s)))
     = (unfinished (queue s) + List.length os)%nat.
Proof.
  intros Hf. revert s.
  induction Hf as [|o os [Hr [Hrb Hcl]] Hf IH]; intros s Hitems; cbn.
  - repeat split; auto.
  - destruct (raised o) as [e|] eqn:He; [|contradiction].
    destruct (attempt_failure o s batch [] e Hitems He)
      as (Hi & Hn & Ht & _ & Hp).
    pose proof (attempt_sessions o s batch [] Hitems) as Hs.
    rewrite Hrb, Hcl in Hp.
    destruct (attempt o s) as [p s']. cbn in *. subst p.
    destruct (IH s' Hi) as (H1 & H2 & H3 & H4 & H5).
    rewrite H1, H2, H3, H4, H5, Ht, Hs, Hn. repeat split; lia.
Qed.

Lemma failing_batch_is_retried_witness :
  items (queue (snd (attempts [commit_raises; commit_raises; commit_raises]
                       one_batch)))
  = [[ada]]
  /\ sessions (snd (attempts [commit_raises; commit_raises; commit_raises]
                      one_batch))
     = 3%nat.
Proof.
  assert (H1 : Forall fails [commit_raises; commit_raises; commit_raises])
    by (repeat constructor; discriminate).
  assert (H2 : items (queue one_batch) = [[ada]]) by reflexivity.
  destruct (failing_batch_is_retried _ one_batch [ada] H1 H2)
    as (_ & Hi & _ & Hs & _).
  split; [exact Hi|exact Hs].
Defined.

(** X5: a batch that fails goes behind the batches that were waiting:
    the queue after the failing turn starts with the batch that stood
    second, and the next turn takes that one. *)
Theorem requeued_batch_goes_last (o o' : Env) (s : State)
  (first second : Batch) (rest : list Batch) :
  items (queue s) = first :: second :: rest ->
  raised o <> None ->
  items (queue (snd (attempt o s))) = second :: rest ++ [first]
  /\ exists calls,
       trace (snd (attempt o' (snd (attempt o s))))
       = trace (snd (attempt o s)) ++ QGet second :: calls.
Proof.
  intros Hitems Hr. destruct (raised o) as [e|] eqn:He; [|contradiction].
  destruct (attempt_failure o s first (second :: rest) e Hitems He)
    as (Hi & _).
  split; [exact Hi|].
  set (s1 := snd (attempt o s)) in *. cbn [app] in Hi.
  destruct o' as [[[]|ea] [[]|ec] [[]|er] [[]|ecl]];
    destruct (unfinished (queue s1)) as [|u] eqn:Hu;
    run_body Hi; rewrite ?Hu; cbn -[insert_all];
    rewrite <- ?app_assoc; cbn [app]; eexists; reflexivity.
Qed.

Lemma requeued_batch_goes_last_witness :
  items (queue (snd (attempt commit_raises
                       (with_queue (put [] (queue one_batch)) one_batch))))
  = [[]; [ada]].
Proof.
  assert (H1 : items (queue (with_queue (put [] (queue one_batch)) one_batch))
               = [[ada]; []]) by reflexivity.
  assert (H2 : raised commit_raises <> None) by discriminate.
  exact (proj1 (requeued_batch_goes_last commit_raises all_return _
                  [ada] [] [] H1 H2)).
Defined.

(** Good turns, one for each batch, empty the queue in its order. *)
Lemma attempts_drain (os : list Env) (s : State) :
  Forall succeeds os ->
  List.length os = List.length (items (queue s)) ->
  (List.length (items (queue s)) <= unfinished (queue s))%nat ->
  fst (attempts os s) = Waiting
  /\ items (queue (snd (attempts os s))) = []
  /\ map erase (table (snd (attempts os s)))
     = map erase (table s) ++ map erase (List.concat (items (queue s))).
Proof.
  intros Hf. revert s.
  induction Hf as [|o os [Hr Hcl] Hf IH]; intros s Hlen Hu; cbn.
  - destruct (items (queue s)); [|discriminate]. cbn.
    now rewrite app_nil_r.
  - destruct (items (queue s)) as [|batch rest] eqn:Hitems;
      [discriminate|]. cbn in Hlen, Hu.
    destruct (attempt_success o s batch rest Hitems ltac:(lia) Hr)
      as (Hi & Ht & _ & Hp).
    destruct (attempt_success_count o s batch rest Hitems Hr) as [Hc|Hc];
      [|lia].
    rewrite Hcl in Hp.
    destruct (attempt o s) as [p s']. cbn in *. subst p.
    destruct (IH s') as (H1 & H2 & H3); [rewrite Hi; lia|rewrite Hi; lia|].
    rewrite H1, H2, H3, Hi, Ht. repeat split.
    unfold insert_all. rewrite !map_app, erase_assign_ids.
    now rewrite <- app_assoc.
Qed.

(** X6: a worker whose turns all go through empties the queue in the
    order of the queue: the table gains the records of the batches, in
    that order, and nothing else. *)
Theorem queue_drained_in_order (os : list Env) (s : State) :
  Forall succeeds os ->
  List.length os = List.length (items (queue s)) ->
  (List.length (items (queue s)) <= unfinished (queue s))%nat ->
  fst (attempts os s) = Waiting
  /\ items (queue (snd (attempts os s))) = []
  /\ map erase (table (snd (attempts os s)))
     = map erase (table s) ++ map erase (List.concat (items (queue s))).
Proof. exact (attempts_drain os s). Qed.

Lemma queue_drained_in_order_witness :
  map erase (table (snd (attempts [all_return] one_batch))) = [ada].
Proof.
  assert (H1 : Forall succeeds [all_return])
    by (repeat constructor).
  assert (H2 : List.length [all_return]
               = List.length (items (queue one_batch))) by reflexivity.
  assert (H3 : (List.length (items (queue one_batch))
                <= unfinished (queue one_batch))%nat) by (cbn; lia).
  exact (proj2 (proj2 (queue_drained_in_order [all_return] one_batch
                         H1 H2 H3))).
Defined.

(** X7: when [close] raises, the worker ends, whether the insert went
    through or not: after a commit the batch is in the table and off the
    queue, after a failure it is back on the queue, and in both cases
    the task of the worker has ended with the exception of [close]. *)
Theorem close_failure_ends_worker (o : Env) (s : State) (batch : Batch)
  (rest : list Batch) (e : exn) :
  items (queue s) = batch :: rest ->
  unfinished (queue s) <> O ->
  close_result o = Raises e ->
  fst (attempt o s) = Dead e
  /\ (raised o = None ->
      table (snd (attempt o s)) = insert_all (table s) batch
      /\ items (queue (snd (attempt o s))) = rest)
  /\ (raised o <> None ->
      table (snd (attempt o s)) = table s
      /\ items (queue (snd (attempt o s))) = rest ++ [batch]).
Proof.
  intros Hitems Hu Hcl. destruct (raised o) as [e1|] eqn:Hr.
  - destruct (attempt_failure o s batch rest e1 Hitems Hr)
      as (Hi & _ & Ht & _ & Hp).
    rewrite Hcl in Hp. split; [|split; [discriminate|now split]].
    rewrite Hp. now destruct (rollback_result o).
  - destruct (attempt_success o s batch rest Hitems Hu Hr)
      as (Hi & Ht & _ & Hp).
    rewrite Hcl in Hp. split; [exact Hp|]. split; [now split|].
    intros H. now elim H.
Qed.

Lemma close_failure_ends_worker_witness :
  fst (attempt close_raises one_batch)
  = Dead (PersistenceError "connection lost").
Proof.
  assert (H1 : items (queue one_batch) = [[ada]]) by reflexivity.
  assert (H2 : unfinished (queue one_batch) <> O) by discriminate.
  assert (H3 : close_result close_raises
               = Raises (PersistenceError "connection lost"))
    by reflexivity.
  exact (proj1 (close_failure_ends_worker close_raises one_batch [ada] []
                  _ H1 H2 H3)).
Defined.

(** ** The pool as a whole *)

Lemma length_set_nth {A : Type} (i : nat) (x : A) (l : list A) :
  List.length (set_nth i x l) = List.length l.
Proof.
  revert i. induction l as [|a l IH]; intros [|i]; cbn; auto.
Qed.

Lemma step_pool_length (o : Env) (i : nat) (s : State) :
  List.length (pool (step o i s)) = List.length (pool s).
Proof.
  unfold step. destruct (nth_error (pool s) i) as [p|]; [|reflexivity].
  pose proof (worker_pool o p s) as Hp.
  destruct (worker o p s) as [p' s']. cbn in *.
  now rewrite length_set_nth, Hp.
Qed.

Lemma step_dead (o : Env) (i j : nat) (s : State) (e : exn) :
  nth_error (pool s) j = Some (Dead e) ->
  nth_error (pool (step o i s)) j = Some (Dead e).
Proof.
  intros Hj. unfold step.
  destruct (nth_error (pool s) i) as [p|] eqn:Hi; [|exact Hj].
  pose proof (worker_pool o p s) as Hp.
  destruct (worker o p s) as [p' s'] eqn:Hw. cbn in *. rewrite Hp.
  destruct (Nat.eq_dec i j) as [->|Hne].
  - rewrite Hj in Hi. injection Hi as <-. cbn in Hw. injection Hw as <- <-.
    now rewrite (set_nth_same _ _ _ Hj).
  - clear - Hj Hne. revert i j Hj Hne.
    induction (pool s) as [|a l IH]; intros [|i] [|j] Hj Hne; cbn in *;
      try discriminate; try congruence; auto.
Qed.

Lemma run_pool_length (schedule : list (nat * Env)) (s : State) :
  List.length (pool (run schedule s)) = List.length (pool s).
Proof.
  revert s. induction schedule as [|[i o] rest IH]; intros s; cbn;
    [reflexivity|]. now rewrite IH, step_pool_length.
Qed.

(** X8: the pool never grows and never replaces a worker: under every
    run it has the workers it had, a worker whose task has ended stays
    ended with the same exception, and the number of live workers does
    not go up. *)
Theorem pool_is_never_refilled (schedule : list (nat * Env)) (s : State) :
  List.length (pool (run schedule s)) = List.length (pool s)
  /\ (alive (run schedule s) <= alive s)%nat
  /\ (forall j e, nth_error (pool s) j = Some (Dead e) ->
                  nth_error (pool (run schedule s)) j = Some (Dead e)).
Proof.
  split; [apply run_pool_length|split; [apply alive_run|]].
  revert s. induction schedule as [|[i o] rest IH]; intros s j e Hj; cbn;
    [exact Hj|]. apply IH. now apply step_dead.
Qed.

Lemma all_dead (l : list pc) :
  List.length (filter (fun p => negb (is_dead p)) l) = O ->
  forall i p, nth_error l i = Some p -> is_dead p = true.
Proof.
  induction l as [|a l IH]; intros H [|i] p Hp; cbn in *;
    try discriminate.
  - injection Hp as ->. destruct (is_dead p); [reflexivity|discriminate].
  - destruct (is_dead a); cbn in H; [|discriminate]. now apply (IH H i).
Qed.

(** X9: once the tasks of all workers have ended, nothing moves any
    more: whatever is scheduled, the queue, the table and the rest of the
    state stay as they are, so the batches left on the queue are never
    written. *)
Theorem dead_pool_does_nothing (schedule : list (nat * Env)) (s : State) :
  alive s = O ->
  run schedule s = s.
Proof.
  intros Ha. induction schedule as [|[i o] rest IH]; cbn; [reflexivity|].
  assert (Hs : step o i s = s).
  { unfold step. destruct (nth_error (pool s) i) as [p|] eqn:Hp;
      [|reflexivity].
    pose proof (all_dead _ Ha i p Hp) as Hd.
    destruct p; try discriminate. cbn.
    now rewrite (set_nth_same _ _ _ Hp), with_pool_same. }
  now rewrite Hs.
Qed.

Lemma dead_pool_does_nothing_witness :
  run [(0%nat, all_return); (3%nat, all_return)]
      (with_pool (repeat (Dead (PersistenceError "connection lost")) 5)
                 one_batch)
  = with_pool (repeat (Dead (PersistenceError "connection lost")) 5)
              one_batch.
Proof.
  apply dead_pool_does_nothing. reflexivity.
Defined.

(** X10: in a state where the count of the queue covers its items and
    the batches in flight, as it does from the start on, [task_done]
    does not raise: a worker that has committed goes on to [close], and
    the batch it has written is not put back. *)
Theorem committed_batch_is_not_requeued (schedule : list (nat * Env))
  (o : Env) (i : nat) (s : State) (batch : Batch) (db : Session) :
  sound s ->
  nth_error (pool (run schedule s)) i = Some (Acking batch db) ->
  nth_error (pool (step o i (run schedule s))) i = Some (Closing db None)
  /\ items (queue (step o i (run schedule s)))
     = items (queue (run schedule s))
  /\ table (step o i (run schedule s)) = table (run schedule s).
Proof.
  intros Hs Hp. destruct (run_conserves schedule s Hs) as [[Hacc _] _].
  set (s1 := run schedule s) in *. unfold accounted in Hacc.
  pose proof (count_nth_error in_flight i _ _ Hp) as Hk. cbn in Hk.
  rewrite (step_at _ _ _ _ Hp). cbn [worker]. unfold task_done.
  destruct (unfinished (queue s1)) as [|u] eqn:Hu; [lia|].
  cbn. split; [|now split].
  now apply nth_error_set_nth with (y := Acking batch db).
Qed.

Lemma committed_batch_is_not_requeued_witness :
  nth_error
    (pool (step all_return 0
             (run [(0%nat, all_return); (0%nat, all_return);
                   (0%nat, all_return); (0%nat, all_return)] one_batch)))
    0
  = Some (Closing (mkSession 0 []) None).
Proof.
  assert (H1 : sound one_batch) by (apply sound_put, sound_start).
  assert (H2 : nth_error
                 (pool (run [(0%nat, all_return); (0%nat, all_return);
                             (0%nat, all_return); (0%nat, all_return)]
                            one_batch)) 0
               = Some (Acking [ada] (mkSession 0 [])))
    by (vm_compute; reflexivity).
  exact (proj1 (committed_batch_is_not_requeued _ all_return 0 one_batch
                  [ada] (mkSession 0 []) H1 H2)).
Defined.

(** ** Sessions are not shared and are given back *)

Lemma in_held (l : list pc) (j : nat) (q : pc) (n : nat) :
  nth_error l j = Some q -> session_at q = Some n ->
  In n (held_sessions l).
Proof.
  revert j. induction l as [|a l IH]; intros [|j] Hq Hn; cbn in *;
    try discriminate; apply in_or_app.
  - injection Hq as ->. rewrite Hn. left. now left.
  - right. now apply (IH j).
Qed.

Lemma held_in (l : list pc) (n : nat) :
  In n (held_sessions l) ->
  exists q, In q l /\ session_at q = Some n.
Proof.
  induction l as [|a l IH]; cbn; [contradiction|].
  intros H. apply in_app_or in H as [H|H].
  - exists a. split; [now left|].
    destruct (session_at a) as [m|]; [|contradiction].
    destruct H as [->|[]]. reflexivity.
  - destruct (IH H) as (q & Hq & Hn). exists q. split; [now right|exact Hn].
Qed.

Lemma held_distinct (l : list pc) (i j : nat) (p q : pc) (n : nat) :
  NoDup (held_sessions l) ->
  nth_error l i = Some p -> nth_error l j = Some q ->
  session_at p = Some n -> session_at q = Some n ->
  i = j.
Proof.
  revert i j. induction l as [|a l IH]; intros [|i] [|j] Hnd Hp Hq Hn Hm;
    cbn in *; try discriminate; try reflexivity.
  - injection Hp as ->. rewrite Hn in Hnd. cbn in Hnd.
    apply NoDup_cons_iff in Hnd as [Hnot _].
    elim Hnot. now apply (in_held l j q).
  - injection Hq as ->. rewrite Hm in Hnd. cbn in Hnd.
    apply NoDup_cons_iff in Hnd as [Hnot _].
    elim Hnot. now apply (in_held l i p).
  - f_equal. apply IH; auto. now apply NoDup_app_remove_l in Hnd.
Qed.

Lemma held_set_nth_in (i : nat) (p' : pc) (l : list pc) (n : nat) :
  In n (held_sessions (set_nth i p' l)) ->
  session_at p' = Some n \/ In n (held_sessions l).
Proof.
  revert i. induction l as [|a l IH]; intros [|i] H; cbn in *; auto.
  - apply in_app_or in H as [H|H].
    + left. destruct (session_at p') as [m|]; [|contradiction].
      destruct H as [->|[]]. reflexivity.
    + right. apply in_or_app. now right.
  - apply in_app_or in H as [H|H].
    + right. apply in_or_app. now left.
    + destruct (IH i H) as [Hn|Hn]; [now left|].
      right. apply in_or_app. now right.
Qed.

(** Putting a worker with a session no one holds, or with the session
    it had, or with none, in the place of a worker keeps the sessions
    apart. *)
Lemma held_set_nth (i : nat) (p p' : pc) (l : list pc) :
  nth_error l i = Some p ->
  NoDup (held_sessions l) ->
  (session_at p' = None \/ session_at p' = session_at p
   \/ exists n, session_at p' = Some n /\ ~ In n (held_sessions l)) ->
  NoDup (held_sessions (set_nth i p' l)).
Proof.
  revert i. induction l as [|a l IH]; intros [|i] Hp Hnd Hcase; cbn in *;
    try discriminate.
  - injection Hp as ->.
    destruct Hcase as [H|[H|(n & H & Hnot)]]; rewrite H.
    + now apply NoDup_app_remove_l in Hnd.
    + exact Hnd.
    + cbn. constructor.
      * intros Hin. apply Hnot. apply in_or_app. now right.
      * now apply NoDup_app_remove_l in Hnd.
  - assert (Htail : NoDup (held_sessions (set_nth i p' l))).
    { apply IH; [exact Hp|now apply NoDup_app_remove_l in Hnd|].
      destruct Hcase as [H|[H|(n & H & Hnot)]]; auto.
      right. right. exists n. split; [exact H|].
      intros Hin. apply Hnot. apply in_or_app. now right. }
    destruct (session_at a) as [m|] eqn:Ha; [|exact Htail].
    cbn in *. apply NoDup_cons_iff in Hnd as [Hm Hnd].
    constructor; [|exact Htail].
    intros Hin. apply held_set_nth_in in Hin as [Hin|Hin]; [|contradiction].
    destruct Hcase as [H|[H|(n & H & Hnot)]].
    + congruence.
    + rewrite H in Hin. apply Hm. now apply (in_held l i p).
    + rewrite H in Hin. injection Hin as ->. apply Hnot. now left.
Qed.

Lemma step_sessions_apart (o : Env) (i : nat) (s : State) :
  numbered s ->
  NoDup (held_sessions (pool s)) ->
  NoDup (held_sessions (pool (step o i s))).
Proof.
  intros [_ Hq] Hnd. unfold step.
  destruct (nth_error (pool s) i) as [p|] eqn:Hp; [|exact Hnd].
  assert (Hnew : ~ In (sessions s) (held_sessions (pool s))).
  { intros Hin. apply held_in in Hin as (q & Hin & Hn).
    specialize (Hq q _ Hin Hn). lia. }
  destruct p; cbn -[insert_all] in *; worker_cases;
    apply (held_set_nth _ _ _ _ Hp Hnd); cbn; auto.
  right. right. exists (sessions s). now split.
Qed.

(** X11: no two workers hold the same session: from a state where the
    sessions of the workers are apart and numbered below the next one to
    give, as at the start, every run of the pool leaves two different
    workers that hold a session with different sessions. *)
Theorem sessions_are_not_shared (schedule : list (nat * Env)) (s : State)
  (i j : nat) (p q : pc) (n m : nat) :
  numbered s ->
  NoDup (held_sessions (pool s)) ->
  nth_error (pool (run schedule s)) i = Some p ->
  nth_error (pool (run schedule s)) j = Some q ->
  i <> j ->
  session_at p = Some n ->
  session_at q = Some m ->
  n <> m.
Proof.
  intros Hnum Hnd. revert s Hnum Hnd.
  induction schedule as [|[k o] rest IH];
    intros s Hnum Hnd Hp Hq Hij Hn Hm; cbn in *.
  - intros ->. apply Hij.
    exact (held_distinct _ _ _ _ _ _ Hnd Hp Hq Hn Hm).
  - apply (IH (step o k s)); auto.
    + now apply step_numbered.
    + now apply step_sessions_apart.
Qed.

Lemma sessions_are_not_shared_witness : 0%nat <> 1%nat.
Proof.
  assert (H1 : numbered (with_queue (put [ada] (queue one_batch)) one_batch))
    by (apply numbered_queue, numbered_queue, numbered_start).
  assert (H2 : NoDup (held_sessions
                        (pool (with_queue (put [ada] (queue one_batch))
                                          one_batch))))
    by constructor.
  assert (H3 : nth_error
                 (pool (run [(0%nat, all_return); (1%nat, all_return);
                             (0%nat, all_return); (1%nat, all_return)]
                            (with_queue (put [ada] (queue one_batch))
                                        one_batch))) 0
               = Some (Adding [ada] (mkSession 0 [])))
    by (vm_compute; reflexivity).
  assert (H4 : nth_error
                 (pool (run [(0%nat, all_return); (1%nat, all_return);
                             (0%nat, all_return); (1%nat, all_return)]
                            (with_queue (put [ada] (queue one_batch))
                                        one_batch))) 1
               = Some (Adding [ada] (mkSession 1 [])))
    by (vm_compute; reflexivity).
  assert (H5 : 0%nat <> 1%nat) by discriminate.
  exact (sessions_are_not_shared _ _ 0%nat 1%nat _ _ 0%nat 1%nat
           H1 H2 H3 H4 H5 eq_refl eq_refl).
Defined.

Lemma step_balanced (o : Env) (i : nat) (s : State) :
  balanced s -> balanced (step o i s).
Proof.
  unfold balanced. intros Hb. unfold step.
  destruct (nth_error (pool s) i) as [p|] eqn:Hp; [|exact Hb].
  destruct p; cbn -[insert_all] in *; worker_cases;
    try (rewrite (set_nth_same _ _ _ Hp); exact Hb);
    match goal with
    | |- context [set_nth i ?q (pool s)] =>
        pose proof (count_set_nth has_session i q _ _ Hp) as Hn;
        cbn in Hn
    end;
    rewrite ?filter_app, ?length_app; cbn; lia.
Qed.

(** X12: sessions are given back: from a state where every session
    opened and not closed is in the hands of a worker, as at the start,
    every run keeps it so, and the sessions opened and not yet closed
    are never more than the workers of the pool. *)
Theorem open_sessions_are_bounded (schedule : list (nat * Env))
  (s : State) :
  balanced s ->
  balanced (run schedule s)
  /\ (List.length (filter is_open (trace (run schedule s)))
      <= List.length (filter is_close (trace (run schedule s)))
         + List.length (pool s))%nat.
Proof.
  intros Hb.
  assert (Hrun : balanced (run schedule s)).
  { revert s Hb. induction schedule as [|[i o] rest IH]; intros s Hb; cbn;
      [exact Hb|]. apply IH. now apply step_balanced. }
  split; [exact Hrun|].
  unfold balanced in Hrun. rewrite Hrun.
  pose proof (filter_length_le has_session (pool (run schedule s))) as Hle.
  rewrite (run_pool_length schedule s) in Hle. lia.
Qed.

Lemma open_sessions_are_bounded_witness :
  (List.length
     (filter is_open
        (trace (run [(0%nat, all_return); (0%nat, all_return)] one_batch)))
   <= List.length
        (filter is_close
           (trace (run [(0%nat, all_return); (0%nat, all_return)] one_batch)))
      + List.length (pool one_batch))%nat.
Proof.
  assert (H : balanced one_batch) by reflexivity.
  exact (proj2 (open_sessions_are_bounded _ one_batch H)).
Defined.

(** ** More on the producer *)

Lemma for_chunks_appends (r : Csv.reader) (s : State) :
  table (fst (for_chunks r s)) = table s
  /\ pool (fst (for_chunks r s)) = pool s
  /\ sessions (fst (for_chunks r s)) = sessions s
  /\ tasks (fst (for_chunks r s)) = tasks s
  /\ exists new,
       items (queue (fst (for_chunks r s))) = items (queue s) ++ new
       /\ unfinished (queue (fst (for_chunks r s)))
          = (unfinished (queue s) + List.length new)%nat.
Proof.
  revert s. induction r as [|e|chunk rest IH]; intros s; cbn.
  - repeat split; auto. exists []. cbn. now rewrite app_nil_r, Nat.add_0_r.
  - repeat split; auto. exists []. cbn. now rewrite app_nil_r, Nat.add_0_r.
  - destruct (users_of_chunk chunk) as [users|e]; cbn.
    + destruct (IH (emit [Next; QPut users]
                      (with_queue (put users (queue s)) s)))
        as (Ht & Hp & Hs & Hk & new & Hi & Hu).
      rewrite Ht, Hp, Hs, Hk. repeat split; auto.
      exists (users :: new). rewrite Hi, Hu. cbn.
      rewrite <- app_assoc. split; [reflexivity|lia].
    + repeat split; auto. exists []. cbn.
      now rewrite app_nil_r, Nat.add_0_r.
Qed.

(** X13: whatever the bytes of the upload are, the producer only adds
    to the queue: the batches that were waiting stay in front in their
    order, the count of unfinished items grows by the number of batches
    put, and the table, the workers, the sessions and the scheduled
    tasks are as they were. *)
Theorem producer_only_appends (beyond : string -> nat -> Csv.reader)
  (file_content : list byte) (filename : string) (s : State) :
  table (fst (process_csv_async beyond file_content filename s)) = table s
  /\ pool (fst (process_csv_async beyond file_content filename s)) = pool s
  /\ sessions (fst (process_csv_async beyond file_content filename s))
     = sessions s
  /\ tasks (fst (process_csv_async beyond file_content filename s))
     = tasks s
  /\ exists new,
       items (queue (fst (process_csv_async beyond file_content filename s)))
       = items (queue s) ++ new
       /\ unfinished (queue (fst (process_csv_async beyond file_content
                                    filename s)))
          = (unfinished (queue s) + List.length new)%nat.
Proof.
  unfold process_csv_async.
  destruct (Utf8.decode file_content) as [text|e].
  - pose proof (for_chunks_appends (Csv.read_csv beyond text chunk_size) s)
      as H.
    destruct (for_chunks (Csv.read_csv beyond text chunk_size) s)
      as [s' [[]|e]]; exact H.
  - repeat split; auto. exists []. cbn. now rewrite app_nil_r, Nat.add_0_r.
Qed.

Lemma batches_ids (frames : list Csv.DataFrame) :
  Forall (fun u => id u = None) (List.concat (map batch_of frames)).
Proof.
  apply Forall_forall. intros u Hu. apply in_concat in Hu as (b & Hb & Hu).
  apply in_map_iff in Hb as (df & <- & _). unfold batch_of in Hu.
  apply in_map_iff in Hu as (row & <- & _). reflexivity.
Qed.

(** X14: the loop puts one record on the queue for each row of each
    frame the reader yields, whatever the reader is; so for a plain
    upload with the four columns the batches put hold as many records as
    the upload has data lines. No record has an identifier yet. *)
Theorem producer_keeps_every_row (beyond : string -> nat -> Csv.reader)
  (file_content : list byte) (filename : string) (s : State)
  (text : string) :
  Utf8.decode file_content = Returns text ->
  (forall frames,
     Csv.read_csv beyond text chunk_size = Csv.yields frames Csv.RStop ->
     Forall (fun df => has_columns (Csv.columns df) = true) frames ->
     exists new,
       items (queue (fst (process_csv_async beyond file_content filename s)))
       = items (queue s) ++ new
       /\ map (@List.length User) new
          = map (fun df => List.length (Csv.rows df)) frames
       /\ Forall (fun u => id u = None) (List.concat new))
  /\ (forall header data,
        Csv.records text = header :: data ->
        Csv.plain chunk_size text = true ->
        has_columns (Csv.fields header) = true ->
        exists new,
          items (queue (fst (process_csv_async beyond file_content
                               filename s)))
          = items (queue s) ++ new
          /\ List.length (List.concat new) = List.length data
          /\ Forall (fun u => id u = None) (List.concat new)).
Proof.
  intros Hdec. split.
  - intros frames Hread Hcols.
    rewrite (producer_frames beyond _ filename s _ _ Hdec Hread Hcols).
    exists (map batch_of frames). split; [cbn; apply queued_items|]. split.
    + rewrite map_map. apply map_ext. intros df. unfold batch_of.
      apply length_map.
    + apply batches_ids.
  - intros header data Hrec Hp Hcols.
    rewrite (producer_plain beyond _ filename s _ _ _ Hdec Hrec Hp Hcols).
    eexists. split; [cbn; apply queued_items|]. split.
    + rewrite chunk_concat. cbn. apply length_map.
    + rewrite chunk_concat. cbn. apply Forall_forall. intros u Hu.
      apply in_map_iff in Hu as (line & <- & _). reflexivity.
Qed.

Lemma producer_keeps_every_row_witness :
  exists new,
    items (queue (fst (process_csv_async stops long_upload "people.csv"
                         (start []))))
    = items (queue (start [])) ++ new
    /\ List.length (List.concat new) = 1001%nat.
Proof.
  assert (Hw : Utf8.well_formed long_upload = true)
    by (vm_compute; reflexivity).
  assert (H1 : Utf8.decode long_upload = Returns (Utf8.text_of long_upload))
    by (unfold Utf8.decode; now rewrite Hw).
  assert (H2 : Csv.records (Utf8.text_of long_upload)
               = (1%nat, "FirstName,LastName,Age,Email") :: long_data)
    by (vm_compute; reflexivity).
  assert (H3 : Csv.plain chunk_size (Utf8.text_of long_upload) = true)
    by (vm_compute; reflexivity).
  assert (H4 : has_columns
                 (Csv.fields (1%nat, "FirstName,LastName,Age,Email"))
               = true) by (vm_compute; reflexivity).
  assert (H5 : List.length long_data = 1001%nat)
    by (vm_compute; reflexivity).
  destruct (proj2 (producer_keeps_every_row stops long_upload "people.csv"
                     (start []) _ H1) _ _ H2 H3 H4)
    as (new & Hi & Hl & _).
  exists new. split; [exact Hi|]. now rewrite Hl.
Defined.

(** X15: an upload without any record line, the empty upload among
    them, raises the 500 for [EmptyDataError] in the producer and leaves
    the queue as it was. *)
Theorem empty_upload_is_an_error (beyond : string -> nat -> Csv.reader)
  (file_content : list byte) (filename : string) (s : State)
  (text : string) :
  Utf8.decode file_content = Returns text ->
  Csv.records text = [] ->
  snd (process_csv_async beyond file_content filename s)
  = Raises (HTTPException 500
              (MsgStr "An error occurred while processing the CSV: "
                      EmptyDataError))
  /\ queue (fst (process_csv_async beyond file_content filename s))
     = queue s.
Proof.
  intros Hdec Hrec. unfold process_csv_async. rewrite Hdec.
  unfold Csv.read_csv, chunk_size. rewrite Hrec. now split.
Qed.

Lemma empty_upload_is_an_error_witness :
  snd (process_csv_async stops [] "people.csv" (start []))
  = Raises (HTTPException 500
              (MsgStr "An error occurred while processing the CSV: "
                      EmptyDataError)).
Proof.
  assert (H1 : Utf8.decode [] = Returns "") by reflexivity.
  assert (H2 : Csv.records "" = []) by reflexivity.
  exact (proj1 (empty_upload_is_an_error stops [] "people.csv" (start []) ""
                  H1 H2)).
Defined.

(** X16: a chunk without rows gives an empty batch whatever its columns
    are; a chunk with rows raises [KeyError] for the first of FirstName,
    LastName, Age, Email that its columns lack, and gives one record for
    each row when they lack none. *)
Theorem missing_column_is_named (cols : list string)
  (rs : list (list value)) :
  users_of_rows cols [] = Returns []
  /\ (rs <> [] -> forall key,
        first_missing cols = Some key ->
        users_of_rows cols rs = Raises (KeyError key))
  /\ (first_missing cols = None ->
      exists users,
        users_of_rows cols rs = Returns users
        /\ List.length users = List.length rs).
Proof.
  split; [reflexivity|]. split.
  - intros Hne key Hkey. destruct rs as [|r rs]; [contradiction|].
    unfold first_missing, required, has_column in Hkey. cbn in Hkey.
    cbn [users_of_rows]. unfold user_of_row, Csv.getitem.
    destruct (Csv.index_of "FirstName" cols); cbn in Hkey;
      [|now injection Hkey as <-].
    destruct (Csv.index_of "LastName" cols); cbn in Hkey;
      [|now injection Hkey as <-].
    destruct (Csv.index_of "Age" cols); cbn in Hkey;
      [|now injection Hkey as <-].
    destruct (Csv.index_of "Email" cols); cbn in Hkey;
      [discriminate|now injection Hkey as <-].
  - intros Hnone. exists (map (user_of cols) rs). split.
    + apply users_of_rows_ok. unfold has_columns.
      apply forallb_forall. intros key Hin.
      pose proof (find_none _ _ Hnone key Hin) as H. cbn in H.
      now apply negb_false_iff in H.
    + apply length_map.
Qed.

Lemma missing_column_is_named_witness :
  users_of_rows ["FirstName"; "Email"] [[VStr "Ada"; VStr "ada@example.org"]]
  = Raises (KeyError "LastName").
Proof.
  apply (proj1 (proj2 (missing_column_is_named ["FirstName"; "Email"]
                         [[VStr "Ada"; VStr "ada@example.org"]]))).
  - discriminate.
  - reflexivity.
Defined.

(** ** From the upload to the table *)

Lemma queued_unfinished (batches : list Batch) (s : State) :
  unfinished (queue (queued batches s))
  = (unfinished (queue s) + List.length batches)%nat.
Proof.
  revert s. induction batches as [|b rest IH]; intros s; cbn; [lia|].
  rewrite IH. cbn. lia.
Qed.

Lemma queued_table (batches : list Batch) (s : State) :
  table (queued batches s) = table s.
Proof.
  revert s. induction batches as [|b rest IH]; intros s; cbn;
    [reflexivity|]. now rewrite IH.
Qed.

(** X17: the pieces put together: for a file name that ends in ".csv"
    and a plain content that decodes and has the four columns, once the
    task the upload created has run and a worker has had one good turn
    for each piece of [chunk_size] data lines, the queue is empty and the
    table has gained the records of the data lines, line after line. *)
Theorem upload_reaches_table (beyond : string -> nat -> Csv.reader)
  (file : UploadFile) (s : State)
  (text : string) (header : nat * string) (data : list (nat * string))
  (os : list Env) :
  (exists prefix, filename file = (prefix ++ ".csv")%string) ->
  tasks s = [] ->
  items (queue s) = [] ->
  Utf8.decode (content file) = Returns text ->
  Csv.records text = header :: data ->
  Csv.plain chunk_size text = true ->
  has_columns (Csv.fields header) = true ->
  Forall succeeds os ->
  List.length os = List.length (Csv.chunk chunk_size chunk_size [] data) ->
  fst (attempts os (fst (run_task beyond (fst (upload_csv file s)))))
  = Waiting
  /\ items (queue (snd (attempts os
                           (fst (run_task beyond
                                   (fst (upload_csv file s)))))))
     = []
  /\ map erase (table (snd (attempts os
                              (fst (run_task beyond
                                      (fst (upload_csv file s)))))))
     = map erase (table s)
       ++ map erase (map (record_of (Csv.fields header)) data).
Proof.
  intros Hname Ht Hq Hdec Hrec Hp Hcols Hos Hlen.
  unfold upload_csv. rewrite (proj2 (endswith_iff _ _) Hname).
  cbn [negb fst]. rewrite (run_created_task beyond _ _ _ Ht). cbn [fst].
  rewrite (producer_plain beyond _ (filename file) s _ _ _
             Hdec Hrec Hp Hcols).
  cbn [fst].
  set (batches := Csv.chunk chunk_size chunk_size []
                    (map (record_of (Csv.fields header)) data)) in *.
  match goal with
  | |- context [attempts os ?st] => set (s1 := st)
  end.
  assert (Hb : @List.length Batch batches
               = List.length (Csv.chunk chunk_size chunk_size [] data)).
  { subst batches.
    pose proof (chunk_map (record_of (Csv.fields header))
                  chunk_size chunk_size [] data) as Hm.
    cbn [map] in Hm. rewrite <- Hm. apply length_map. }
  assert (Hc : List.concat batches
               = map (record_of (Csv.fields header)) data)
    by (subst batches; apply chunk_concat).
  assert (Hi : items (queue s1) = batches)
    by (subst s1; cbn; now rewrite queued_items, Hq).
  assert (Hu : unfinished (queue s1)
               = (unfinished (queue s) + @List.length Batch batches)%nat)
    by (subst s1; cbn; apply queued_unfinished).
  assert (Htab : table s1 = table s)
    by (subst s1; cbn; apply queued_table).
  destruct (attempts_drain os s1 Hos) as (H1 & H2 & H3).
  - rewrite Hi, Hb. exact Hlen.
  - rewrite Hi, Hu. lia.
  - rewrite H1, H2, H3, Hi, Htab, Hc. now repeat split.
Qed.

Lemma upload_reaches_table_witness :
  map erase
    (table (snd (attempts [all_return; all_return]
                   (fst (run_task stops
                           (fst (upload_csv
                                   (mkUploadFile "people.csv" long_upload)
                                   (start []))))))))
  = map erase (table (start []))
    ++ map erase
         (map (record_of (Csv.fields (1%nat, "FirstName,LastName,Age,Email")))
              long_data)
  /\ map (record_of (Csv.fields (1%nat, "FirstName,LastName,Age,Email")))
         long_data
     = repeat ada 1000 ++ [alan].
Proof.
  assert (H0 : exists prefix, "people.csv" = (prefix ++ ".csv")%string)
    by (exists "people"; reflexivity).
  assert (Hw : Utf8.well_formed long_upload = true)
    by (vm_compute; reflexivity).
  assert (H1 : Utf8.decode long_upload = Returns (Utf8.text_of long_upload))
    by (unfold Utf8.decode; now rewrite Hw).
  assert (H2 : Csv.records (Utf8.text_of long_upload)
               = (1%nat, "FirstName,LastName,Age,Email") :: long_data)
    by (vm_compute; reflexivity).
  assert (H3 : Csv.plain chunk_size (Utf8.text_of long_upload) = true)
    by (vm_compute; reflexivity).
  assert (H4 : has_columns
                 (Csv.fields (1%nat, "FirstName,LastName,Age,Email"))
               = true) by (vm_compute; reflexivity).
  assert (H5 : Forall succeeds [all_return; all_return])
    by (repeat constructor).
  assert (H6 : List.length [all_return; all_return]
               = List.length (Csv.chunk chunk_size chunk_size [] long_data))
    by (vm_compute; reflexivity).
  assert (H7 : tasks (start []) = []) by reflexivity.
  assert (H8 : items (queue (start [])) = []) by reflexivity.
  split.
  - exact (proj2 (proj2 (upload_reaches_table stops
                           (mkUploadFile "people.csv" long_upload) (start [])
                           _ _ _ [all_return; all_return]
                           H0 H7 H8 H1 H2 H3 H4 H5 H6))).
  - vm_compute. reflexivity.
Defined.

(** ** Decoding *)

Lemma well_formed_bytes (n : nat) (bs : list byte) :
  (List.length bs <= n)%nat ->
  Utf8.well_formed bs = true ->
  Forall (fun b => Byte.to_N b <> 192%N /\ Byte.to_N b <> 193%N
                   /\ (Byte.to_N b <= 244)%N) bs.
Proof.
  revert bs. induction n as [|n IH]; intros bs Hlen Hwf.
  - destruct bs; [constructor|cbn in Hlen; lia].
  - destruct bs as [|b0 r0]; [constructor|]. cbn in Hlen.
    cbn [Utf8.well_formed] in Hwf.
    unfold Utf8.continuation, Utf8.between in *.
    repeat match type of Hwf with
           | (if ?c then _ else _) = true => destruct c eqn:?
           | match ?l with _ => _ end = true => destruct l as [|? ?]
           | (_ && _)%bool = true => apply andb_true_iff in Hwf as [? Hwf]
           end; try discriminate; cbn in Hlen;
      repeat match goal with
             | H : (if ?c then _ else _) = true |- _ => destruct c eqn:?
             | H : (_ && _)%bool = true |- _ =>
                 apply andb_true_iff in H as [? ?]
             end;
      rewrite ?andb_false_iff, ?N.leb_le, ?N.leb_gt in *;
      repeat (constructor; [lia|]);
      apply IH; auto; lia.
Qed.

(** X18: what the decoder lets through: a content of bytes below 128 is
    always decoded, to the text with these bytes; and a content that is
    decoded has no byte 192, 193 or above 244 anywhere. *)
Theorem decode_accepts_ascii_only_utf8 (bs : list byte) :
  (Forall (fun b => (Byte.to_N b < 128)%N) bs ->
   Utf8.decode bs = Returns (Utf8.text_of bs)
   /\ Utf8.encode (Utf8.text_of bs) = bs)
  /\ (forall text, Utf8.decode bs = Returns text ->
      Forall (fun b => Byte.to_N b <> 192%N /\ Byte.to_N b <> 193%N
                       /\ (Byte.to_N b <= 244)%N) bs).
Proof.
  split.
  - intros Hascii. split.
    + unfold Utf8.decode.
      assert (Hwf : Utf8.well_formed bs = true).
      { induction Hascii as [|b r Hb Hr IH]; [reflexivity|].
        cbn [Utf8.well_formed]. unfold Utf8.between.
        destruct (N.leb_spec 0 (Byte.to_N b)); [|lia].
        destruct (N.leb_spec (Byte.to_N b) 127); [|lia]. exact IH. }
      now rewrite Hwf.
    + apply list_byte_of_string_of_list_byte.
  - intros text Hdec. unfold Utf8.decode in Hdec.
    destruct (Utf8.well_formed bs) eqn:Hwf; [|discriminate].
    now apply (well_formed_bytes (List.length bs)).
Qed.

Lemma decode_accepts_ascii_only_utf8_witness :
  Utf8.decode [x41; x2c; x42] = Returns (Utf8.text_of [x41; x2c; x42]).
Proof.
  apply (proj1 (decode_accepts_ascii_only_utf8 [x41; x2c; x42])).
  repeat constructor.
Defined.
